(** * Visibility-distribution search of [BinHeapEnv]

    A shallow embedding of the array pipeline of
    [sd_maskrcnn/envs/bin_heap_env.py]: [render_target_modal_mask],
    [find_target_distribution_2d] and [find_target_distribution_3d].

    Conventions of the embedding.
    - A depth image is a function from (row, column) to a rational; its
      shape is the camera's (height, width).  Float arithmetic of the source
      is read as exact rational arithmetic.
    - An index array of shape (2, P) is a list of (row, column) pairs; an
      array of shape (2, G, P) is a list (candidates) of such lists.
    - Integer-array indexing follows numpy: an index [i] into an axis of
      length [n] is legal iff [-n <= i < n], a negative one counts from the
      end, and an illegal one raises [IndexError], which is [None] here. *)

From Stdlib Require Import String ZArith QArith Qabs Qround Qminmax List Bool Lia Lqa.
Import ListNotations.
Local Open Scope Z_scope.

(** ** A small option monad for the [IndexError] paths *)

Definition bind {A B : Type} (m : option A) (k : A -> option B) : option B :=
  match m with
  | Some a => k a
  | None => None
  end.

Notation "x <- m ;; k" := (bind m (fun x => k))
  (at level 61, m at next level, right associativity).

Fixpoint mapM {A B : Type} (f : A -> option B) (l : list A) : option (list B) :=
  match l with
  | [] => Some []
  | a :: l' =>
      match f a with
      | None => None
      | Some b =>
          match mapM f l' with
          | None => None
          | Some bs => Some (b :: bs)
          end
      end
  end.

Fixpoint zipWith {A B C : Type} (f : A -> B -> C) (l : list A) (m : list B)
  : list C :=
  match l, m with
  | a :: l', b :: m' => f a b :: zipWith f l' m'
  | _, _ => []
  end.

(** ** The numpy operations the source uses *)

Module Np.

Definition pixel : Type := (Z * Z)%type.
Definition image (A : Type) : Type := Z -> Z -> A.

Definition at_px {A : Type} (a : image A) (p : pixel) : A := a (fst p) (snd p).

Definition pixel_eqb (p q : pixel) : bool :=
  (fst p =? fst q) && (snd p =? snd q).

(** [a < b] on array entries. *)
Definition Qltb (a b : Q) : bool := negb (Qle_bool b a).

(** [np.arange(n)] *)
Definition arange (n : Z) : list Z := map Z.of_nat (seq 0 (Z.to_nat n)).

(** [x.astype(np.int)] on a float: the fractional part is dropped. *)
Definition astype_int (q : Q) : Z := Z.quot (Qnum q) (Zpos (Qden q)).

(** [np.linspace(0, stop, num=num, dtype=np.int)]: sample [k] is
    [k * stop / (num - 1)], cast to int.  numpy forms the product
    [k * (stop / (num - 1))] in float64; the integer part of that product
    can differ from the one of the exact quotient only where the quotient is
    itself an integer and the step [stop / (num - 1)] is not a double (a
    camera of width 59 samples column 28 where the quotient is 29).  The
    samples are exact on the cameras of [Scenes] below (steps 1 and 2), and
    they lie in [0, stop] either way; results that depend on which rows and
    columns are sampled are stated for arbitrary samples (see [grid_from]). *)
Definition linspace_int (stop num : Z) : list Z :=
  map (fun k => astype_int (inject_Z (k * stop) / inject_Z (num - 1))%Q) (arange num).

(** [g = np.meshgrid(y, x); np.array([g[0].flatten(), g[1].flatten()])]:
    with the default 'xy' indexing both arrays have shape (len x, len y),
    [g[0][i, j] = y[j]] and [g[1][i, j] = x[i]]. *)
Definition meshgrid_flat (y x : list Z) : list pixel :=
  flat_map (fun xi => map (fun yj => (yj, xi)) y) x.

Definition sumZ (l : list Z) : Z := fold_right Z.add 0 l.

(** [np.mean] of an integer vector.  On an empty vector numpy yields NaN;
    the quotient by zero is 0 here, and no pixel depends on it. *)
Definition mean (l : list Z) : Q :=
  (inject_Z (sumZ l) / inject_Z (Z.of_nat (length l)))%Q.

(** All index pairs of an array of shape (h, w), in C order. *)
Definition all_pixels (h w : Z) : list pixel :=
  flat_map (fun r => map (fun c => (r, c)) (arange w)) (arange h).

(** [np.stack(np.where(a > b))] for arrays of shape (h, w). *)
Definition where_gt (h w : Z) (a b : image Q) : list pixel :=
  filter (fun p => Qltb (at_px b p) (at_px a p)) (all_pixels h w).

(** One index into an axis of length [n]. *)
Definition norm_index (n i : Z) : option Z :=
  if (0 <=? i) && (i <? n) then Some i
  else if (- n <=? i) && (i <? 0) then Some (i + n)
  else None.

(** [a[r, c]] for an array of shape (h, w). *)
Definition getitem2 {A : Type} (h w : Z) (a : image A) (p : pixel) : option A :=
  r <- norm_index h (fst p) ;;
  c <- norm_index w (snd p) ;;
  Some (a r c).

(** [a[tuple(inds)]] for an index array of shape (2, G, P). *)
Definition gather {A : Type} (h w : Z) (a : image A) (inds : list (list pixel))
  : option (list (list A)) :=
  mapM (mapM (getitem2 h w a)) inds.

(** [np.any] and [sum] of a boolean vector. *)
Definition any (l : list bool) : bool := existsb (fun b => b) l.
Definition count_true (l : list bool) : Z := Z.of_nat (length (filter (fun b => b) l)).

(** [np.any] of an integer index array of shape (2, K): some entry is non-zero. *)
Definition any_nonzero (l : list pixel) : bool :=
  existsb (fun p => negb (fst p =? 0) || negb (snd p =? 0)) l.

(** Every entry of an integer index array of shape (2, K) is zero. *)
Definition all_zero (l : list pixel) : bool := forallb (fun p => pixel_eqb p (0, 0)) l.

(** [inds[:, mask]] for [inds] of shape (2, G, P) and a boolean [mask] of
    shape (G, P): the selected columns in C order. *)
Definition select_row (row : list pixel) (m : list bool) : list pixel :=
  map fst (filter snd (combine row m)).

Definition select (inds : list (list pixel)) (mask : list (list bool)) : list pixel :=
  concat (zipWith select_row inds mask).

End Np.

(** ** The environment's search methods *)

Module BinHeapEnv.
Import Np.

(** What the methods read from [self]: the camera's size and the three depth
    renders of [render_target_modal_mask], in the order they are taken:
    the scene with the target and the bin hidden, the plane alone, and the
    plane with the target. *)
Record env : Type := {
  height : Z;
  width : Z;
  render_full_depth : image Q;
  render_plane_depth : image Q;
  render_depth : image Q
}.

(** [render_target_modal_mask]: returns
    [(full_depth, depth, modal_mask, plane_depth)] with
    [modal_mask = depth - full_depth < 0]. *)
Definition modal_mask (full_depth depth : image Q) : image bool :=
  fun r c => Qltb (depth r c - full_depth r c)%Q 0%Q.

Definition render_target_modal_mask (e : env)
  : image Q * image Q * image bool * image Q :=
  let full_depth := render_full_depth e in
  let plane_depth := render_plane_depth e in
  let depth := render_depth e in
  (full_depth, depth, modal_mask full_depth depth, plane_depth).

(** *** Target extent, centroid and depth offset *)

Definition target_inds_of (h w : Z) (plane_depth target_depth : image Q) : list pixel :=
  where_gt h w plane_depth target_depth.

(** [np.mean(target_inds, axis=1)] *)
Definition target_centroid_of (target_inds : list pixel) : Q * Q :=
  (mean (map fst target_inds), mean (map snd target_inds)).

(** [(plane_depth - target_depth)[tuple(target_inds)]] *)
Definition target_depth_offset_of (plane_depth target_depth : image Q)
           (target_inds : list pixel) : list Q :=
  map (fun p => (at_px plane_depth p - at_px target_depth p)%Q) target_inds.

(** *** Candidate translations *)

Definition num_x_steps : Z := 51.
Definition num_y_steps : Z := 38.

(** The flattened meshgrid, minus the integer part of the centroid. *)
Definition grid_of (h w : Z) (target_centroid : Q * Q) : list pixel :=
  let x := linspace_int (w - 1) num_x_steps in
  let y := linspace_int (h - 1) num_y_steps in
  map (fun g => (fst g - astype_int (fst target_centroid),
                 snd g - astype_int (snd target_centroid)))
      (meshgrid_flat y x).


Definition translate (g : pixel) (inds : list pixel) : list pixel :=
  map (fun t => (fst t + fst g, snd t + snd g)) inds.

(** 2D: [np.repeat(target_inds[None,...], G, axis=0) + grid[None,...].T],
    transposed to shape (2, G, P): candidate [j] is the target translated by
    [grid[:, j]]. *)
Definition shift_2d (target_inds grid : list pixel) : list (list pixel) :=
  map (fun g => translate g target_inds) grid.

(** *** In-plane rotations of the 3D search *)

Definition num_rots : Z := 16.

(** [np.cos] and [np.sin] at the angle [k * 2 * np.pi / num_rots]. *)
Record trig : Type := { cosa : Z -> Q; sina : Z -> Q }.

(** [np.einsum('ijk,jl->kil', rot_mats, target_inds - target_centroid)],
    plus the centroid, cast to int; with
    [rot_mats = [[cos, sin], [-sin, cos]]].  The sum is exact here and
    rounded to float64 in the source: the two casts agree unless the exact
    value lies within rounding error of an integer. *)
Definition rotate_px (tr : trig) (target_centroid : Q * Q) (k : Z) (t : pixel) : pixel :=
  let dr := (inject_Z (fst t) - fst target_centroid)%Q in
  let dc := (inject_Z (snd t) - snd target_centroid)%Q in
  (astype_int (cosa tr k * dr + sina tr k * dc + fst target_centroid)%Q,
   astype_int (- sina tr k * dr + cosa tr k * dc + snd target_centroid)%Q).

(** [rot_angles = np.arange(num_rots) * 2 * np.pi / num_rots], in units of
    [2 * np.pi / num_rots]. *)
Definition rot_angles : list Z := arange num_rots.

Definition rotated_target_inds_of (tr : trig) (target_centroid : Q * Q)
           (target_inds : list pixel) : list (list pixel) :=
  map (fun k => map (rotate_px tr target_centroid k) target_inds) rot_angles.

(** 3D: [np.repeat(rotated_target_inds, G, axis=0) + np.tile(grid, num_rots)[None,...].T],
    transposed: candidate [j] is rotation [j / G] translated by [grid[:, j mod G]]. *)
Definition shift_3d (rotated_target_inds : list (list pixel)) (grid : list pixel)
  : list (list pixel) :=
  flat_map (fun rot => map (fun g => translate g rot) grid) rotated_target_inds.

(** *** Index transformer: reflection and in-bounds mask *)

Definition reflect_px (h w : Z) (p : pixel) : pixel :=
  ((if fst p >=? h then h - 1 - fst p else fst p),
   (if snd p >=? w then w - 1 - snd p else snd p)).

Definition reflect (h w : Z) (shifted : list (list pixel)) : list (list pixel) :=
  map (map (reflect_px h w)) shifted.

(** [in_bounds_mask]: both coordinates [>= 0], tested after the reflection. *)
Definition in_bounds_px (p : pixel) : bool := (0 <=? fst p) && (0 <=? snd p).

Definition in_bounds_mask_of (shifted_target_inds : list (list pixel)) : list (list bool) :=
  map (map in_bounds_px) shifted_target_inds.

(** *** Occlusion evaluator *)

(** [plane_depth[tuple(shifted_target_inds)] - target_depth_offset] *)
Definition shifted_target_depths_of (h w : Z) (plane_depth : image Q)
           (shifted_target_inds : list (list pixel)) (target_depth_offset : list Q)
  : option (list (list Q)) :=
  pd <- gather h w plane_depth shifted_target_inds ;;
  Some (map (fun row => zipWith Qminus row target_depth_offset) pd).

(** [np.logical_and(shifted_target_depths < full_depths, in_bounds_mask)] *)
Definition visible_shifted_target_mask_of
           (shifted_target_depths full_depths : list (list Q))
           (in_bounds_mask : list (list bool)) : list (list bool) :=
  zipWith (zipWith andb)
          (zipWith (zipWith Qltb) shifted_target_depths full_depths)
          in_bounds_mask.

(** *** Similarity scorer *)

(** Fully occluded target:
    [np.logical_and(~np.any(visible, axis=1)[:,None], in_bounds_mask)]. *)
Definition match_mask_of (visible in_bounds_mask : list (list bool)) : list (list bool) :=
  zipWith (fun vis inb => map (andb (negb (any vis))) inb) visible in_bounds_mask.

(** [shifted_target_masks[j]]: the image that is true at the visible pixels
    of candidate [j].  Visible pixels are in bounds, so the assignment
    neither wraps nor raises. *)
Definition shifted_target_mask (row : list pixel) (vis : list bool) : pixel -> bool :=
  fun p => existsb (pixel_eqb p) (select_row row vis).

(** [shifted_target_masks[:, target_modal_mask].sum(axis=1)] *)
Definition intersection_of (h w : Z) (target_modal_mask : image bool)
           (shifted_target_inds : list (list pixel)) (visible : list (list bool))
  : list Z :=
  let modal_px := filter (at_px target_modal_mask) (all_pixels h w) in
  zipWith (fun row vis =>
             Z.of_nat (length (filter (shifted_target_mask row vis) modal_px)))
          shifted_target_inds visible.

(** [visible.sum(axis=1) + target_inds_mask.sum() - intersection] *)
Definition union_of (visible : list (list bool)) (n : Z) (intersection : list Z) : list Z :=
  zipWith (fun vis i => count_true vis + n - i) visible intersection.

(** [intersection / union] *)
Definition mask_ious_of (intersection union : list Z) : list Q :=
  zipWith (fun i u => (inject_Z i / inject_Z u)%Q) intersection union.

(** 2D: [min(0.9, (n - 2) / n)]. *)
Definition iou_thresh_2d (n : Z) : Q :=
  Qmin (9 # 10) (inject_Z (n - 2) / inject_Z n)%Q.

(** 3D: [min(0.9, max(n - 2, 1) / n)]. *)
Definition iou_thresh_3d (n : Z) : Q :=
  Qmin (9 # 10) (inject_Z (Z.max (n - 2) 1) / inject_Z n)%Q.

(** [np.logical_and((mask_ious >= iou_thresh)[:,None], in_bounds_mask)] *)
Definition iou_mask_of (mask_ious : list Q) (iou_thresh : Q)
           (in_bounds_mask : list (list bool)) : list (list bool) :=
  zipWith (fun iou inb => map (andb (Qle_bool iou_thresh iou)) inb)
          mask_ious in_bounds_mask.

(** [if not np.any(matching_target_inds): matching_target_inds = target_inds] *)
Definition fallback (matching_target_inds target_inds : list pixel) : list pixel :=
  if negb (any_nonzero matching_target_inds) then target_inds
  else matching_target_inds.

(** The occlusion evaluation both searches share, from the unreflected
    candidate index arrays: the reflected [shifted_target_inds], the
    [in_bounds_mask] and the [visible_shifted_target_mask]. *)
Definition candidates_of (e : env) (target_inds : list pixel)
           (shifted : list (list pixel))
  : option (list (list pixel) * list (list bool) * list (list bool)) :=
  let h := height e in
  let w := width e in
  let '(full_depth, target_depth, _, plane_depth) := render_target_modal_mask e in
  let target_depth_offset := target_depth_offset_of plane_depth target_depth target_inds in
  let shifted_target_inds := reflect h w shifted in
  let in_bounds_mask := in_bounds_mask_of shifted_target_inds in
  shifted_target_depths <-
    shifted_target_depths_of h w plane_depth shifted_target_inds target_depth_offset ;;
  full_depths <- gather h w full_depth shifted_target_inds ;;
  Some (shifted_target_inds, in_bounds_mask,
        visible_shifted_target_mask_of shifted_target_depths full_depths in_bounds_mask).

(** [target_modal_mask[tuple(target_inds)]]; the indices come from
    [np.where] and are in range. *)
Definition target_inds_mask_of (e : env) (target_inds : list pixel) : list bool :=
  map (at_px (modal_mask (render_full_depth e) (render_depth e))) target_inds.

(** The [mask_ious] of the branch for a target that is not fully occluded. *)
Definition ious_of (e : env) (target_inds : list pixel)
           (shifted_target_inds : list (list pixel)) (visible : list (list bool))
  : list Q :=
  let n := count_true (target_inds_mask_of e target_inds) in
  let intersection :=
    intersection_of (height e) (width e)
                    (modal_mask (render_full_depth e) (render_depth e))
                    shifted_target_inds visible in
  mask_ious_of intersection (union_of visible n intersection).

(** [shifted_target_inds[1:, iou_mask]], before the fallback. *)
Definition iou_matching (iou_thresh : Z -> Q) (e : env) (target_inds : list pixel)
           (shifted_target_inds : list (list pixel))
           (in_bounds_mask visible : list (list bool)) : list pixel :=
  let n := count_true (target_inds_mask_of e target_inds) in
  let mask_ious := ious_of e target_inds shifted_target_inds visible in
  select shifted_target_inds (iou_mask_of mask_ious (iou_thresh n) in_bounds_mask).

(** [shifted_target_inds[:, match_mask]] of the fully occluded branch. *)
Definition occluded_matching (shifted_target_inds : list (list pixel))
           (in_bounds_mask visible : list (list bool)) : list pixel :=
  select shifted_target_inds (match_mask_of visible in_bounds_mask).

(** The shared tail of both searches, up to [matching_target_inds]; the two
    methods differ in the candidates and in [iou_thresh] only. *)
Definition matching_target_inds_of (iou_thresh : Z -> Q) (e : env)
           (target_inds : list pixel) (shifted : list (list pixel))
  : option (list pixel) :=
  st <- candidates_of e target_inds shifted ;;
  let '(shifted_target_inds, in_bounds_mask, visible) := st in
  if negb (any (target_inds_mask_of e target_inds)) then
    Some (occluded_matching shifted_target_inds in_bounds_mask visible)
  else
    Some (fallback (iou_matching iou_thresh e target_inds shifted_target_inds
                                 in_bounds_mask visible)
                   target_inds).

(** *** Distribution accumulator *)

Record distribution : Type := {
  dist_im : image bool;
  soft_dist_im : image Z
}.

(** [dist_im[rows, cols] = True], [np.add.at(soft_dist_im, (rows, cols), 1)]
    and the rescaling to [uint8].  When nothing was hit the maximum is 0 and
    the quotient is NaN everywhere, which the cast turns into 0. *)
Definition hits (norm : list pixel) (r c : Z) : Z :=
  Z.of_nat (length (filter (pixel_eqb (r, c)) norm)).

Definition accumulate (h w : Z) (matching_target_inds : list pixel)
  : option distribution :=
  norm <- mapM (fun p => r <- norm_index h (fst p) ;;
                         c <- norm_index w (snd p) ;;
                         Some (r, c)) matching_target_inds ;;
  let mx := fold_right Z.max 0 (map (fun p => hits norm (fst p) (snd p)) (all_pixels h w)) in
  Some {| dist_im := fun r c => existsb (pixel_eqb (r, c)) norm;
          soft_dist_im := fun r c =>
            if mx =? 0 then 0
            else astype_int (inject_Z (255 * hits norm r c) / inject_Z mx)%Q |}.

(** *** The two searches *)

Definition matching_2d (e : env) : option (list pixel) :=
  let '(_, target_depth, _, plane_depth) := render_target_modal_mask e in
  let target_inds := target_inds_of (height e) (width e) plane_depth target_depth in
  let target_centroid := target_centroid_of target_inds in
  let grid := grid_of (height e) (width e) target_centroid in
  matching_target_inds_of iou_thresh_2d e target_inds (shift_2d target_inds grid).

Definition find_target_distribution_2d (e : env) : option distribution :=
  m <- matching_2d e ;; accumulate (height e) (width e) m.

Definition matching_3d (tr : trig) (e : env) : option (list pixel) :=
  let '(_, target_depth, _, plane_depth) := render_target_modal_mask e in
  let target_inds := target_inds_of (height e) (width e) plane_depth target_depth in
  let target_centroid := target_centroid_of target_inds in
  let grid := grid_of (height e) (width e) target_centroid in
  let rotated_target_inds := rotated_target_inds_of tr target_centroid target_inds in
  matching_target_inds_of iou_thresh_3d e target_inds (shift_3d rotated_target_inds grid).

Definition find_target_distribution_3d (tr : trig) (e : env) : option distribution :=
  m <- matching_3d tr e ;; accumulate (height e) (width e) m.

(** *** The float64 values of [np.cos] and [np.sin] at the sixteen angles

    [rot_angles[k]] is the double computed for [k * 2 * np.pi / 16]; each
    entry below is the exact value of the double returned there (for
    instance [cos] at index 4 is 6.123233995736766e-17, not 0). *)
Definition float64_cos (k : Z) : Q :=
  match k with
  | 0 => (1)%Q
  | 1 => ((4160783518353059 # 4503599627370496))%Q
  | 2 => ((6369051672525773 # 9007199254740992))%Q
  | 3 => ((1723452963400281 # 4503599627370496))%Q
  | 4 => ((4967757600021511 # 81129638414606681695789005144064))%Q
  | 5 => ((- 3446905926800561 # 9007199254740992))%Q
  | 6 => ((- 1592262918131443 # 2251799813685248))%Q
  | 7 => ((- 4160783518353059 # 4503599627370496))%Q
  | 8 => ((- 1))%Q
  | 9 => ((- 8321567036706119 # 9007199254740992))%Q
  | 10 => ((- 3184525836262887 # 4503599627370496))%Q
  | 11 => ((- 6893811853601133 # 18014398509481984))%Q
  | 12 => ((- 3725818200016133 # 20282409603651670423947251286016))%Q
  | 13 => ((6893811853601127 # 18014398509481984))%Q
  | 14 => ((6369051672525771 # 9007199254740992))%Q
  | 15 => ((2080391759176529 # 2251799813685248))%Q
  | _ => (0)%Q
  end.

Definition float64_sin (k : Z) : Q :=
  match k with
  | 0 => (0)%Q
  | 1 => ((6893811853601123 # 18014398509481984))%Q
  | 2 => ((1592262918131443 # 2251799813685248))%Q
  | 3 => ((4160783518353059 # 4503599627370496))%Q
  | 4 => (1)%Q
  | 5 => ((4160783518353059 # 4503599627370496))%Q
  | 6 => ((6369051672525773 # 9007199254740992))%Q
  | 7 => ((6893811853601125 # 18014398509481984))%Q
  | 8 => ((4967757600021511 # 40564819207303340847894502572032))%Q
  | 9 => ((- 6893811853601121 # 18014398509481984))%Q
  | 10 => ((- 1592262918131443 # 2251799813685248))%Q
  | 11 => ((- 2080391759176529 # 2251799813685248))%Q
  | 12 => ((- 1))%Q
  | 13 => ((- 8321567036706117 # 9007199254740992))%Q
  | 14 => ((- 3184525836262887 # 4503599627370496))%Q
  | 15 => ((- 3446905926800567 # 9007199254740992))%Q
  | _ => (0)%Q
  end.

Definition float64_trig : trig := {| cosa := float64_cos; sina := float64_sin |}.

End BinHeapEnv.

(** ** Reference definitions *)

Module Spec.
Import Np.




(** [z] is an integer nearest to [q]. *)
Definition nearest_int (q : Q) (z : Z) : Prop := (Qabs (q - inject_Z z) <= 1 # 2)%Q.

(** The coordinates of a rotated pixel before the cast to int. *)
Definition rotate_exact (tr : BinHeapEnv.trig) (cen : Q * Q) (k : Z) (t : pixel) : Q * Q :=
  let dr := (inject_Z (fst t) - fst cen)%Q in
  let dc := (inject_Z (snd t) - snd cen)%Q in
  (BinHeapEnv.cosa tr k * dr + BinHeapEnv.sina tr k * dc + fst cen,
   - BinHeapEnv.sina tr k * dr + BinHeapEnv.cosa tr k * dc + snd cen)%Q.

(** Sixteen angles evenly spaced over a full turn, read off the table of
    cosines and sines: entry 0 is the identity, every entry is the previous
    one turned by entry 1 (the addition formulas, within [tol]), the entry
    after the last is entry 0 again, and the sine is positive up to the half
    turn, so that the [n] steps make one turn and not several. *)
Definition evenly_spaced (tr : BinHeapEnv.trig) (n : Z) (tol : Q) : bool :=
  let c := BinHeapEnv.cosa tr in
  let s := BinHeapEnv.sina tr in
  Qeq_bool (c 0) 1 && Qeq_bool (s 0) 0 &&
  forallb (fun k =>
             let k' := (k + 1) mod n in
             Qle_bool (Qabs (c k' - (c k * c 1 - s k * s 1))) tol &&
             Qle_bool (Qabs (s k' - (s k * c 1 + c k * s 1))) tol &&
             (if (0 <? k) && (2 * k <? n) then Qltb 0 (s k) else true))
          (arange n).

(** No integer lies within [tol] of [q]: a rounding error below [tol] does
    not change the integer part of [q]. *)
Definition clear_of_integers (tol q : Q) : bool :=
  Qfloor (q - tol) =? Qfloor (q + tol).

End Spec.

(** ** Scenes used as concrete inputs

    All are 101 x 38 cameras over a plane at depth 10, so that both
    [np.linspace] calls have an exact step (2 columns, 1 row). *)

Module Scenes.
Import Np BinHeapEnv.

Definition px_in (l : list pixel) (r c : Z) : bool := existsb (pixel_eqb (r, c)) l.

Definition plane (_ _ : Z) : Q := 10%Q.

(** No target in view. *)
Definition blank_env : env :=
  {| height := 38; width := 101;
     render_full_depth := plane;
     render_plane_depth := plane;
     render_depth := plane |}.

(** A one-pixel target at (0, 1), five units above the plane, under an
    occluder at depth 3; nothing else in the scene. *)
Definition hidden_env : env :=
  {| height := 38; width := 101;
     render_full_depth := fun r c => if px_in [(0, 1)] r c then 3%Q else 10%Q;
     render_plane_depth := plane;
     render_depth := fun r c => if px_in [(0, 1)] r c then 5%Q else 10%Q |}.

(** The same one-pixel target, unoccluded. *)
Definition single_env : env :=
  {| height := 38; width := 101;
     render_full_depth := plane;
     render_plane_depth := plane;
     render_depth := fun r c => if px_in [(0, 1)] r c then 5%Q else 10%Q |}.


(** A thin rod lying along row 10 across the whole image, unoccluded. *)
Definition rod_env : env :=
  {| height := 38; width := 101;
     render_full_depth := plane;
     render_plane_depth := plane;
     render_depth := fun r c => if r =? 10 then 9%Q else 10%Q |}.

(** A two-pixel target at (0, 0), (0, 1) below a cover at depth 1 that spans
    the whole image. *)
Definition covered_env : env :=
  {| height := 38; width := 101;
     render_full_depth := fun _ _ => 1%Q;
     render_plane_depth := plane;
     render_depth := fun r c => if px_in [(0, 0); (0, 1)] r c then 9%Q else 10%Q |}.

(** An unoccluded 2 x 2 block at rows 0-1, columns 1-2. *)
Definition block_env : env :=
  {| height := 38; width := 101;
     render_full_depth := plane;
     render_plane_depth := plane;
     render_depth := fun r c =>
       if px_in [(0, 1); (0, 2); (1, 1); (1, 2)] r c then 9%Q else 10%Q |}.

(** A four-pixel target (0,0), (0,3), (1,1), (3,0): (1,1) lies under a cover
    at depth 1 that spans the image except at the other three pixels, where
    the target is the nearest surface. *)
Definition corner_env : env :=
  {| height := 38; width := 101;
     render_full_depth := fun r c =>
       if px_in [(0, 0)] r c then 10%Q
       else if px_in [(0, 3); (3, 0)] r c then 9%Q else 1%Q;
     render_plane_depth := plane;
     render_depth := fun r c =>
       if px_in [(0, 0); (1, 1)] r c then 9%Q
       else if px_in [(0, 3); (3, 0)] r c then 8%Q else 10%Q |}.

(** The amodal pixels of a short bar with a gap, for the rotation. *)
Definition bar_inds : list pixel := [(0, 0); (0, 1); (0, 2); (0, 4)].

Definition target_inds_in (e : env) : list pixel :=
  target_inds_of (height e) (width e) (render_plane_depth e) (render_depth e).

Definition grid_in (e : env) : list pixel :=
  grid_of (height e) (width e) (target_centroid_of (target_inds_in e)).

End Scenes.

(** ** The scene and the render methods

    The methods of [BinHeapEnv] that render toggle [mesh.is_visible] on the
    nodes of [self._scene] around calls of an [OffscreenRenderer].  The scene
    is the list of its nodes; [_reset_scene] gives every mesh node a [Mesh]
    of its own, so the flag is kept on the node.  A node without a mesh (the
    camera, the lights) has no flag.  What the renderer returns is a
    parameter: a function of the node list. *)

Module Render.
Import Np.

Record node : Type := {
  node_name : option string;
  mesh_is_visible : option bool
}.

(** The scene's nodes and the number of renderers created and not yet
    deleted. *)
Record scene : Type := {
  nodes : list node;
  live_renderers : nat
}.

Inductive exn : Type := StopIteration | AttributeError | IndexError.

(** A method run: its result or the exception raised, and the scene it
    leaves behind in either case. *)
Definition M (A : Type) : Type := scene -> (A + exn) * scene.

Definition ret {A : Type} (a : A) : M A := fun s => (inl a, s).
Definition raise {A : Type} (x : exn) : M A := fun s => (inr x, s).
Definition bindM {A B : Type} (m : M A) (k : A -> M B) : M B :=
  fun s => match m s with
           | (inl a, s') => k a s'
           | (inr x, s') => (inr x, s')
           end.

Notation "x <~ m ;; k" := (bindM m (fun x => k))
  (at level 61, m at next level, right associativity).
Notation "m ;;; k" := (bindM m (fun _ => k))
  (at level 61, right associativity).

Fixpoint mapMM {A B : Type} (f : A -> M B) (l : list A) : M (list B) :=
  match l with
  | [] => ret []
  | a :: l' => b <~ f a ;; bs <~ mapMM f l' ;; ret (b :: bs)
  end.

Definition has_name (name : string) (n : node) : bool :=
  match node_name n with
  | Some x => String.eqb x name
  | None => false
  end.

Fixpoint index_from (k : nat) (name : string) (l : list node) : option nat :=
  match l with
  | [] => None
  | n :: l' => if has_name name n then Some k else index_from (S k) name l'
  end.

(** [next(iter(self._scene.get_nodes(name=name)))]: a node of that name
    (the first of the list when several carry it), [StopIteration] when
    there is none. *)
Definition get_node (name : string) : M nat :=
  fun s => match index_from 0 name (nodes s) with
           | Some i => (inl i, s)
           | None => (inr StopIteration, s)
           end.

(** Rewrite the flag of every mesh node, as a function of the node's
    position and its current flag. *)
Fixpoint reflag_from (k : nat) (f : nat -> bool -> bool) (l : list node) : list node :=
  match l with
  | [] => []
  | n :: l' =>
      match mesh_is_visible n with
      | Some v => {| node_name := node_name n; mesh_is_visible := Some (f k v) |}
      | None => n
      end :: reflag_from (S k) f l'
  end.

Definition reflag (f : nat -> bool -> bool) (l : list node) : list node :=
  reflag_from 0 f l.

(** Node [i] exists and carries a mesh. *)
Definition has_mesh (l : list node) (i : nat) : bool :=
  match nth_error l i with
  | Some n => match mesh_is_visible n with Some _ => true | None => false end
  | None => false
  end.

(** [node.mesh.is_visible = b]; on a node without a mesh the attribute
    access fails. *)
Definition set_is_visible (i : nat) (b : bool) : M unit :=
  fun s => match nth_error (nodes s) i with
           | Some n =>
               match mesh_is_visible n with
               | Some _ =>
                   (inl tt,
                    {| nodes := reflag (fun j v => if Nat.eqb j i then b else v) (nodes s);
                       live_renderers := live_renderers s |})
               | None => (inr AttributeError, s)
               end
           | None => (inr AttributeError, s)
           end.

(** [for mn in self._scene.mesh_nodes: mn.mesh.is_visible = b] *)
Definition set_all_visible (b : bool) : M unit :=
  fun s => (inl tt, {| nodes := reflag (fun _ _ => b) (nodes s);
                       live_renderers := live_renderers s |}).

(** [OffscreenRenderer(width, height)] and [renderer.delete()]. *)
Definition new_renderer : M unit :=
  fun s => (inl tt, {| nodes := nodes s; live_renderers := S (live_renderers s) |}).
Definition delete_renderer : M unit :=
  fun s => (inl tt, {| nodes := nodes s; live_renderers := pred (live_renderers s) |}).

(** What [renderer.render] returns: with [RenderFlags.DEPTH_ONLY] the depth
    image, otherwise the colour render (of a type left open). *)
Inductive rendered (C : Type) : Type :=
| Depth (d : image Q)
| Colour (c : C).
Arguments Depth {C} d.
Arguments Colour {C} c.

Section Methods.
Variable C : Type.
Variable depth_of : list node -> image Q.
Variable colour_of : list node -> C.

Definition render_depth_only : M (image Q) := fun s => (inl (depth_of (nodes s)), s).

Definition render_flags (color : bool) : M (rendered C) :=
  fun s => (inl (if color then Colour (colour_of (nodes s))
                 else Depth (depth_of (nodes s))), s).

(** [render_camera_image] *)
Definition render_camera_image (color : bool) : M (rendered C) :=
  new_renderer ;;;
  image <~ render_flags color ;;
  delete_renderer ;;;
  ret image.

(** [render_target_image] *)
Definition render_target_image (target_key : string) (color : bool) : M (rendered C) :=
  new_renderer ;;;
  set_all_visible false ;;;
  target_node <~ get_node target_key ;;
  set_is_visible target_node true ;;;
  image <~ render_flags color ;;
  delete_renderer ;;;
  set_all_visible true ;;;
  ret image.

(** The two layers [render_segmentation_images] writes for one object:
    [np.iinfo(np.uint8).max] where the mask holds, 0 elsewhere. *)
Definition amodal_layer (depth : image Q) : image Z :=
  fun r c => if Qltb 0 (depth r c) then 255 else 0.

Definition modal_layer (depth full_depth : image Q) : image Z :=
  fun r c =>
    if Qltb (Qabs (depth r c - full_depth r c)) (1 # 1000000)
       && Qltb 0 (full_depth r c)
    then 255 else 0.

(** The loop over [obj_mesh_nodes]. *)
Fixpoint segmentation_loop (full_depth : image Q) (obj_mesh_nodes : list nat)
  : M (list (image Z) * list (image Z)) :=
  match obj_mesh_nodes with
  | [] => ret ([], [])
  | node :: rest =>
      set_is_visible node true ;;;
      depth <~ render_depth_only ;;
      set_is_visible node false ;;;
      data <~ segmentation_loop full_depth rest ;;
      ret (amodal_layer depth :: fst data, modal_layer depth full_depth :: snd data)
  end.

(** [render_segmentation_images]; layer [i] of each result is
    [data[:, :, i]]. *)
Definition render_segmentation_images (obj_keys : list string)
  : M (list (image Z) * list (image Z)) :=
  new_renderer ;;;
  full_depth <~ render_depth_only ;;
  delete_renderer ;;;
  new_renderer ;;;
  obj_mesh_nodes <~ mapMM get_node obj_keys ;;
  set_all_visible false ;;;
  data <~ segmentation_loop full_depth obj_mesh_nodes ;;
  delete_renderer ;;;
  set_all_visible true ;;;
  ret data.

(** [render_target_modal_mask] *)
Definition render_target_modal_mask (target_key : string)
  : M (image Q * image Q * image bool * image Q) :=
  target_node <~ get_node target_key ;;
  set_is_visible target_node false ;;;
  bin_node <~ get_node "bin"%string ;;
  set_is_visible bin_node false ;;;
  new_renderer ;;;
  full_depth <~ render_depth_only ;;
  set_all_visible false ;;;
  plane_node <~ get_node "plane"%string ;;
  set_is_visible plane_node true ;;;
  plane_depth <~ render_depth_only ;;
  set_is_visible target_node true ;;;
  depth <~ render_depth_only ;;
  let modal_mask := BinHeapEnv.modal_mask full_depth depth in
  delete_renderer ;;;
  set_all_visible true ;;;
  ret (full_depth, depth, modal_mask, plane_depth).

(** The environment the array pipeline of a search runs on, from the
    camera size and the renders. *)
Definition env_of (h w : Z) (r : image Q * image Q * image bool * image Q)
  : BinHeapEnv.env :=
  let '(full_depth, depth, _, plane_depth) := r in
  {| BinHeapEnv.height := h; BinHeapEnv.width := w;
     BinHeapEnv.render_full_depth := full_depth;
     BinHeapEnv.render_plane_depth := plane_depth;
     BinHeapEnv.render_depth := depth |}.

Definition lift_index_error {A : Type} (o : option A) : M A :=
  match o with
  | Some a => ret a
  | None => raise IndexError
  end.

(** [find_target_distribution_2d] and [find_target_distribution_3d] as
    methods: the renders first, then the array pipeline. *)
Definition find_target_distribution_2d (target_key : string) (h w : Z)
  : M BinHeapEnv.distribution :=
  r <~ render_target_modal_mask target_key ;;
  lift_index_error (BinHeapEnv.find_target_distribution_2d (env_of h w r)).

Definition find_target_distribution_3d (tr : BinHeapEnv.trig)
           (target_key : string) (h w : Z) : M BinHeapEnv.distribution :=
  r <~ render_target_modal_mask target_key ;;
  lift_index_error (BinHeapEnv.find_target_distribution_3d tr (env_of h w r)).

End Methods.

End Render.

(** A small scene for the render methods: the camera node, the plane, the
    bin and two objects, the second one hidden; and a renderer whose depth
    is the number of visible meshes. *)

Module RenderScenes.
Import Np Render.

Definition mesh_node (name : string) (visible : bool) : node :=
  {| node_name := Some name; mesh_is_visible := Some visible |}.

Definition bare_node (name : string) : node :=
  {| node_name := Some name; mesh_is_visible := None |}.

Definition bin_scene : scene :=
  {| nodes := [bare_node "camera"; mesh_node "plane" true; mesh_node "bin" true;
               mesh_node "obj_0" true; mesh_node "obj_1" false];
     live_renderers := 0 |}.

(** The same scene without the plane. *)
Definition no_plane_scene : scene :=
  {| nodes := [bare_node "camera"; mesh_node "bin" true;
               mesh_node "obj_0" true; mesh_node "obj_1" false];
     live_renderers := 0 |}.

Definition visible_count (l : list node) : image Q :=
  fun _ _ =>
    inject_Z (Z.of_nat (length (filter (fun n => match mesh_is_visible n with
                                                 | Some v => v
                                                 | None => false
                                                 end) l))).

End RenderScenes.

(** ** Lemmas on the list combinators *)

Section Lists.
Context {A B C : Type}.

Lemma mapM_length (f : A -> option B) :
  forall l l', mapM f l = Some l' -> length l' = length l.
Proof.
  induction l as [|a l IH]; intros l' H; simpl in H.
  - inversion H; reflexivity.
  - destruct (f a); [|discriminate].
    destruct (mapM f l) eqn:E; [|discriminate].
    inversion H; subst; simpl; f_equal; apply IH; reflexivity.
Qed.

Lemma mapM_nth_error (f : A -> option B) :
  forall l l' i a, mapM f l = Some l' -> nth_error l i = Some a ->
    exists b, f a = Some b /\ nth_error l' i = Some b.
Proof.
  induction l as [|x l IH]; intros l' i a H Hn.
  - destruct i; discriminate.
  - simpl in H. destruct (f x) eqn:Fx; [|discriminate].
    destruct (mapM f l) eqn:E; [|discriminate].
    inversion H; subst; clear H.
    destruct i as [|i]; simpl in *.
    + inversion Hn; subst. eauto.
    + eapply IH; eauto.
Qed.

Lemma mapM_total (f : A -> option B) :
  forall l, (forall a, In a l -> exists b, f a = Some b) ->
    exists l', mapM f l = Some l'.
Proof.
  induction l as [|x l IH]; intros H; simpl.
  - eauto.
  - destruct (H x (or_introl eq_refl)) as [b ->].
    destruct IH as [l' ->]; [intros; apply H; right; assumption|].
    eauto.
Qed.

Lemma zipWith_length (f : A -> B -> C) :
  forall l m, length (zipWith f l m) = Nat.min (length l) (length m).
Proof.
  induction l as [|a l IH]; intros [|b m]; simpl; auto.
Qed.

Lemma zipWith_nth_error (f : A -> B -> C) :
  forall l m i a b, nth_error l i = Some a -> nth_error m i = Some b ->
    nth_error (zipWith f l m) i = Some (f a b).
Proof.
  induction l as [|x l IH]; intros [|y m] [|i] a b Ha Hb; simpl in *;
    try discriminate.
  - congruence.
  - eauto.
Qed.

Lemma zipWith_nth_error_inv (f : A -> B -> C) :
  forall l m i c, nth_error (zipWith f l m) i = Some c ->
    exists a b, nth_error l i = Some a /\ nth_error m i = Some b /\ c = f a b.
Proof.
  induction l as [|x l IH]; intros [|y m] [|i] c H; simpl in *;
    try discriminate.
  - inversion H; eauto.
  - eauto.
Qed.

End Lists.

(** ** Lemmas on the numpy operations *)

Section NumpyFacts.
Import Np.

Lemma Qltb_lt (a b : Q) : Qltb a b = true <-> (a < b)%Q.
Proof.
  unfold Qltb. rewrite negb_true_iff.
  split; intros H.
  - apply Qnot_le_lt. intros Hle. apply Qle_bool_iff in Hle. congruence.
  - destruct (Qle_bool b a) eqn:E; [|reflexivity].
    apply Qle_bool_iff in E. exfalso. eapply Qlt_not_le; eauto.
Qed.

Lemma pixel_eqb_eq (p q : pixel) : pixel_eqb p q = true <-> p = q.
Proof.
  unfold pixel_eqb. destruct p as [a b], q as [c d]; simpl.
  rewrite andb_true_iff, !Z.eqb_eq. split.
  - intros [-> ->]; reflexivity.
  - intros H; inversion H; auto.
Qed.

Lemma existsb_pixel_eqb (p : pixel) (l : list pixel) :
  existsb (pixel_eqb p) l = true <-> In p l.
Proof.
  rewrite existsb_exists. split.
  - intros [q [Hq E]]. apply pixel_eqb_eq in E. subst; assumption.
  - intros H. exists p. split; [assumption|]. apply pixel_eqb_eq; reflexivity.
Qed.

Lemma arange_In (n k : Z) : In k (arange n) <-> 0 <= k < n.
Proof.
  unfold arange. rewrite in_map_iff. split.
  - intros [i [<- Hi]]. apply in_seq in Hi. lia.
  - intros H. exists (Z.to_nat k). split; [lia|]. apply in_seq. lia.
Qed.

Lemma all_pixels_In (h w : Z) (p : pixel) :
  In p (all_pixels h w) <-> 0 <= fst p < h /\ 0 <= snd p < w.
Proof.
  unfold all_pixels. rewrite in_flat_map. split.
  - intros [r [Hr Hp]]. apply in_map_iff in Hp as [c [<- Hc]].
    apply arange_In in Hr, Hc. simpl. lia.
  - intros [Hr Hc]. exists (fst p). split; [apply arange_In; assumption|].
    apply in_map_iff. exists (snd p). split; [destruct p; reflexivity|].
    apply arange_In; assumption.
Qed.

Lemma where_gt_In (h w : Z) (a b : image Q) (p : pixel) :
  In p (where_gt h w a b) <->
  (0 <= fst p < h /\ 0 <= snd p < w) /\ (at_px b p < at_px a p)%Q.
Proof.
  unfold where_gt. rewrite filter_In, all_pixels_In, Qltb_lt. reflexivity.
Qed.

Lemma norm_index_in_range (n i : Z) : 0 <= i < n -> norm_index n i = Some i.
Proof.
  intros H. unfold norm_index.
  replace ((0 <=? i) && (i <? n)) with true; [reflexivity|].
  symmetry. apply andb_true_iff. split; [apply Z.leb_le|apply Z.ltb_lt]; lia.
Qed.

Lemma norm_index_Some (n i : Z) :
  (exists k, norm_index n i = Some k) <-> - n <= i < n.
Proof.
  unfold norm_index.
  destruct (0 <=? i) eqn:E1; destruct (i <? n) eqn:E2;
    destruct (- n <=? i) eqn:E3; destruct (i <? 0) eqn:E4; simpl;
    try apply Z.leb_le in E1; try apply Z.leb_gt in E1;
    try apply Z.ltb_lt in E2; try apply Z.ltb_ge in E2;
    try apply Z.leb_le in E3; try apply Z.leb_gt in E3;
    try apply Z.ltb_lt in E4; try apply Z.ltb_ge in E4;
    split; intros H; try lia; try (eexists; reflexivity);
    try (destruct H as [k H]; discriminate).
Qed.

Lemma getitem2_in_range {A : Type} (h w : Z) (a : image A) (p : pixel) :
  0 <= fst p < h -> 0 <= snd p < w -> getitem2 h w a p = Some (at_px a p).
Proof.
  intros Hr Hc. unfold getitem2, bind.
  rewrite (norm_index_in_range _ _ Hr), (norm_index_in_range _ _ Hc). reflexivity.
Qed.

Lemma getitem2_Some {A : Type} (h w : Z) (a : image A) (p : pixel) :
  (exists v, getitem2 h w a p = Some v) <->
  (- h <= fst p < h /\ - w <= snd p < w).
Proof.
  rewrite <- !norm_index_Some. unfold getitem2, bind. split.
  - intros [v H]. destruct (norm_index h (fst p)); [|discriminate].
    destruct (norm_index w (snd p)); [|discriminate]. eauto.
  - intros [[k ->] [k' ->]]. eauto.
Qed.

Lemma fold_max_zero {X : Type} (l : list X) (f : X -> Z) :
  (forall x, In x l -> f x = 0) -> fold_right Z.max 0 (map f l) = 0.
Proof.
  induction l as [|x l IH]; intros H; simpl; [reflexivity|].
  rewrite H by (left; reflexivity). rewrite IH; [reflexivity|].
  intros; apply H; right; assumption.
Qed.

Lemma select_rows_nil (inds : list (list pixel)) (mask : list (list bool)) :
  Forall (fun row => row = []) inds -> select inds mask = [].
Proof.
  unfold select. revert mask.
  induction inds as [|row inds IH]; intros mask H; [reflexivity|].
  destruct mask as [|m mask]; [reflexivity|]. simpl.
  inversion H; subst. rewrite IH by assumption. reflexivity.
Qed.

Lemma gather_rows_nil {A : Type} (h w : Z) (a : image A) (inds : list (list pixel)) :
  Forall (fun row => row = []) inds ->
  exists v, gather h w a inds = Some v.
Proof.
  intros H. apply mapM_total. intros row Hin.
  rewrite Forall_forall in H. rewrite (H row Hin). simpl. eauto.
Qed.

End NumpyFacts.

(** ** The accumulator on an empty match array *)

Section Results.
Import Np BinHeapEnv Scenes.

Lemma accumulate_nil (h w : Z) :
  exists d, accumulate h w [] = Some d /\
            forall r c, dist_im d r c = false /\ soft_dist_im d r c = 0.
Proof.
  unfold accumulate; simpl. eexists. split; [reflexivity|].
  intros r c; simpl. split; [reflexivity|].
  rewrite fold_max_zero; [reflexivity|]. intros; reflexivity.
Qed.

Lemma reflect_rows_nil (h w : Z) (shifted : list (list pixel)) :
  Forall (fun row => row = []) shifted ->
  Forall (fun row => row = []) (reflect h w shifted).
Proof.
  unfold reflect. intros H. apply Forall_forall. intros row Hin.
  apply in_map_iff in Hin as [row' [<- Hin']].
  rewrite Forall_forall in H. rewrite (H row' Hin'). reflexivity.
Qed.

Lemma candidates_of_rows_nil (e : env) (target_inds : list pixel)
      (shifted : list (list pixel)) :
  Forall (fun row => row = []) shifted ->
  exists inb vis,
    candidates_of e target_inds shifted =
      Some (reflect (height e) (width e) shifted, inb, vis).
Proof.
  intros H. unfold candidates_of, render_target_modal_mask, shifted_target_depths_of.
  cbv zeta beta iota.
  pose proof (reflect_rows_nil (height e) (width e) _ H) as Hr.
  destruct (gather_rows_nil (height e) (width e) (render_plane_depth e) _ Hr) as [v1 ->].
  destruct (gather_rows_nil (height e) (width e) (render_full_depth e) _ Hr) as [v2 ->].
  simpl. eauto.
Qed.

Lemma matching_rows_nil (thr : Z -> Q) (e : env) (shifted : list (list pixel)) :
  Forall (fun row => row = []) shifted ->
  matching_target_inds_of thr e [] shifted = Some [].
Proof.
  intros H. unfold matching_target_inds_of.
  destruct (candidates_of_rows_nil e [] shifted H) as [inb [vis ->]].
  simpl. unfold occluded_matching.
  rewrite select_rows_nil; [reflexivity|]. apply reflect_rows_nil; assumption.
Qed.

Lemma shift_2d_nil (grid : list pixel) :
  Forall (fun row => row = []) (shift_2d [] grid).
Proof.
  unfold shift_2d. apply Forall_forall. intros row Hin.
  apply in_map_iff in Hin as [g [<- _]]. reflexivity.
Qed.

Lemma shift_3d_nil (tr : trig) (cen : Q * Q) (grid : list pixel) :
  Forall (fun row => row = []) (shift_3d (rotated_target_inds_of tr cen []) grid).
Proof.
  unfold shift_3d, rotated_target_inds_of. apply Forall_forall. intros row Hin.
  apply in_flat_map in Hin as [rot [Hrot Hin]].
  apply in_map_iff in Hrot as [k [<- _]].
  apply in_map_iff in Hin as [g [<- _]]. reflexivity.
Qed.

(** C9.  When the amodal pixel set of the target is empty, both searches
    return the degenerate result and raise nothing: every candidate of either
    enumeration is an empty index array, so no pixel is gathered or scored,
    no candidate matches, and the binary image is all-false and the intensity
    image all-zero. *)
Theorem empty_extent_returns_empty_images (tr : trig) (e : env) :
  target_inds_in e = [] ->
  (Forall (fun row => row = []) (shift_2d (target_inds_in e) (grid_in e)) /\
   Forall (fun row => row = [])
          (shift_3d (rotated_target_inds_of
                       tr (target_centroid_of (target_inds_in e))
                       (target_inds_in e))
                    (grid_in e))) /\
  (matching_2d e = Some [] /\ matching_3d tr e = Some []) /\
  (exists d, find_target_distribution_2d e = Some d /\
             forall r c, dist_im d r c = false /\ soft_dist_im d r c = 0) /\
  (exists d, find_target_distribution_3d tr e = Some d /\
             forall r c, dist_im d r c = false /\ soft_dist_im d r c = 0).
Proof.
  intros H. split.
  { rewrite H. split; [apply shift_2d_nil|apply shift_3d_nil]. }
  unfold target_inds_in in H.
  assert (H2 : matching_2d e = Some []).
  { unfold matching_2d, render_target_modal_mask. cbv zeta beta iota.
    rewrite H. apply matching_rows_nil, shift_2d_nil. }
  assert (H3 : matching_3d tr e = Some []).
  { unfold matching_3d, render_target_modal_mask. cbv zeta beta iota.
    rewrite H. apply matching_rows_nil, shift_3d_nil. }
  split; [split; assumption|].
  unfold find_target_distribution_2d, find_target_distribution_3d.
  rewrite H2, H3. simpl. split; apply accumulate_nil.
Qed.

Lemma empty_extent_returns_empty_images_witness :
  target_inds_in blank_env = [] /\
  matching_2d blank_env = Some [] /\ matching_3d float64_trig blank_env = Some [].
Proof.
  split; [vm_compute; reflexivity|].
  apply (empty_extent_returns_empty_images float64_trig blank_env).
  vm_compute; reflexivity.
Defined.

(** C1 (evaluated on the failing input).  The target of [hidden_env] has a
    non-empty amodal pixel set and is fully occluded; no candidate matches,
    the occluded branch has no fallback, and both searches return an
    all-false binary image and an all-zero intensity image. *)
Theorem occluded_branch_returns_empty_images :
  target_inds_in hidden_env = [(0, 1)] /\
  any (target_inds_mask_of hidden_env (target_inds_in hidden_env)) = false /\
  (exists d, find_target_distribution_2d hidden_env = Some d /\
             forall r c, dist_im d r c = false /\ soft_dist_im d r c = 0) /\
  (exists d, find_target_distribution_3d float64_trig hidden_env = Some d /\
             forall r c, dist_im d r c = false /\ soft_dist_im d r c = 0).
Proof.
  assert (H2 : matching_2d hidden_env = Some []) by (vm_compute; reflexivity).
  assert (H3 : matching_3d float64_trig hidden_env = Some [])
    by (vm_compute; reflexivity).
  split; [vm_compute; reflexivity|].
  split; [vm_compute; reflexivity|].
  unfold find_target_distribution_2d, find_target_distribution_3d.
  rewrite H2, H3. simpl. split; apply accumulate_nil.
Qed.

End Results.

(** ** The IoU threshold and the masks of the extractor *)

Section Thresholds.
Import Np BinHeapEnv Scenes Spec.

Lemma iou_thresh_3d_pos (n : Z) : 0 < n -> (0 < iou_thresh_3d n)%Q.
Proof.
  intros Hn. unfold iou_thresh_3d. apply Q.min_glb_lt; [reflexivity|].
  apply Qlt_shift_div_l.
  - change 0%Q with (inject_Z 0). rewrite <- Zlt_Qlt. assumption.
  - rewrite Qmult_0_l. change 0%Q with (inject_Z 0). rewrite <- Zlt_Qlt. lia.
Qed.



(** C2 (evaluated on the failing input).  The 2D search computes
    [min(0.9, (n - 2) / n)] without the [max(n - 2, 1)] of the 3D search: for
    a modal mask of one pixel its threshold is -1 and for two pixels 0,
    where the 3D search has 0.9 and 1/2.  On the one-pixel target of
    [single_env] the 2D search therefore keeps one pixel of every one of the
    1938 candidates, while the 3D search keeps none and falls back to the
    original pixel. *)
Theorem iou_thresh_2d_misses_max :
  (iou_thresh_2d 1 == - 1)%Q /\ (iou_thresh_2d 2 == 0)%Q /\
  (iou_thresh_3d 1 == 9 # 10)%Q /\ (iou_thresh_3d 2 == 1 # 2)%Q /\
  count_true (target_inds_mask_of single_env (target_inds_in single_env)) = 1 /\
  option_map (@length pixel) (matching_2d single_env) = Some 1938%nat /\
  matching_3d float64_trig single_env = Some [(0, 1)].
Proof.
  repeat split; vm_compute; reflexivity.
Qed.







End Thresholds.

(** ** Rotations of the 3D search *)

Section Rotations.
Import Np BinHeapEnv Scenes Spec.

Lemma astype_int_nonneg (q : Q) :
  (0 <= q)%Q ->
  (inject_Z (astype_int q) <= q)%Q /\ (q < inject_Z (astype_int q) + 1)%Q.
Proof.
  destruct q as [n d]. unfold astype_int, Qle, Qlt; simpl.
  intros Hn. rewrite Z.mul_1_r in *.
  pose proof (Z.quot_rem' n (Zpos d)) as E.
  pose proof (Z.rem_bound_pos n (Zpos d) Hn ltac:(lia)) as Hb.
  split; nia.
Qed.

Lemma astype_int_nonpos (q : Q) :
  (q <= 0)%Q ->
  (q <= inject_Z (astype_int q))%Q /\ (inject_Z (astype_int q) - 1 < q)%Q.
Proof.
  destruct q as [n d]. unfold astype_int, Qle, Qlt; simpl.
  intros Hn. rewrite Z.mul_1_r in *.
  pose proof (Z.quot_rem' n (Zpos d)) as E.
  pose proof (Z.rem_bound_pos_neg n (Zpos d) ltac:(lia) Hn) as Hb.
  split; nia.
Qed.

Lemma flat_map_nth_error {X Y : Type} (f : X -> list Y) (n : nat) :
  forall (l : list X) (k i : nat) (a : X),
    (forall x, In x l -> length (f x) = n) ->
    nth_error l k = Some a -> (i < n)%nat ->
    nth_error (flat_map f l) (k * n + i) = nth_error (f a) i.
Proof.
  induction l as [|x l IH]; intros k i a Hlen Hk Hi.
  - destruct k; discriminate.
  - simpl. destruct k as [|k]; simpl in *.
    + inversion Hk; subst. apply nth_error_app1. rewrite Hlen; auto.
    + rewrite nth_error_app2; rewrite (Hlen x) by auto; [|lia].
      replace (n + k * n + i - n)%nat with (k * n + i)%nat by lia.
      apply IH; auto.
Qed.

Lemma flat_map_length_const {X Y : Type} (f : X -> list Y) (n : nat) :
  forall (l : list X), (forall x, In x l -> length (f x) = n) ->
    length (flat_map f l) = (length l * n)%nat.
Proof.
  induction l as [|x l IH]; intros H; simpl; [reflexivity|].
  rewrite length_app, H by (simpl; auto).
  rewrite IH; [reflexivity|]. intros; apply H; simpl; auto.
Qed.

Lemma rot_angles_nth (k : nat) :
  (k < 16)%nat -> nth_error rot_angles k = Some (Z.of_nat k).
Proof.
  intros H. do 16 (destruct k as [|k]; [reflexivity|]). lia.
Qed.

Lemma shift_3d_nth_error (tr : trig) (cen : Q * Q) (target_inds grid : list pixel)
      (k i : nat) (g : pixel) :
  (k < 16)%nat -> nth_error grid i = Some g ->
  nth_error (shift_3d (rotated_target_inds_of tr cen target_inds) grid)
            (k * length grid + i) =
    Some (translate g (map (rotate_px tr cen (Z.of_nat k)) target_inds)).
Proof.
  intros Hk Hg. unfold shift_3d.
  rewrite (flat_map_nth_error _ (length grid) _ k i
             (map (rotate_px tr cen (Z.of_nat k)) target_inds)).
  - apply (map_nth_error
             (fun g0 => translate g0 (map (rotate_px tr cen (Z.of_nat k)) target_inds))).
    assumption.
  - intros rot _. apply length_map.
  - unfold rotated_target_inds_of.
    apply (map_nth_error (fun k0 => map (rotate_px tr cen k0) target_inds)).
    apply rot_angles_nth; assumption.
  - apply nth_error_Some. congruence.
Qed.

Lemma astype_int_inject (q : Q) (z : Z) : (q == inject_Z z)%Q -> astype_int q = z.
Proof.
  destruct q as [n d]. unfold Qeq, astype_int; simpl. intros E.
  rewrite Z.mul_1_r in E. subst n. apply Z.quot_mul. discriminate.
Qed.

(** C8 (as amended).  The 3D search uses sixteen angles evenly spaced over
    a full turn (the table of their float64 cosines and sines satisfies the
    addition formulas from one entry to the next within 2^-50 and closes
    after sixteen steps).  Its candidates are the cross product of the
    rotations with the translation grid: candidate [k * G + i] is the target
    rotated by angle [k] and then translated by grid offset [i].  The
    rotation is about the centroid: a pixel at the centroid stays where it
    is under every angle.  Each rotated coordinate is the value of the
    rotation formula cast to int, that is rounded toward zero and not to the
    nearest integer; this is stated where no integer lies within 2^-20 of
    the value, so that float rounding cannot change its integer part. *)
Theorem rotations_cross_grid_and_truncate
        (cen : Q * Q) (target_inds grid : list pixel) :
  let rotated := rotated_target_inds_of float64_trig cen target_inds in
  (length rot_angles = 16%nat /\
   evenly_spaced float64_trig num_rots (1 # 1125899906842624) = true) /\
  length (shift_3d rotated grid) = (16 * length grid)%nat /\
  (forall (k i : nat) (g : pixel),
      (k < 16)%nat -> nth_error grid i = Some g ->
      nth_error (shift_3d rotated grid) (k * length grid + i) =
        Some (translate g (map (rotate_px float64_trig cen (Z.of_nat k))
                               target_inds))) /\
  (forall (k : Z) (t : pixel),
      (inject_Z (fst t) == fst cen)%Q -> (inject_Z (snd t) == snd cen)%Q ->
      rotate_px float64_trig cen k t = t) /\
  (forall (k : Z) (t : pixel),
      let v := rotate_exact float64_trig cen k t in
      let z := rotate_px float64_trig cen k t in
      (clear_of_integers (1 # 1048576) (fst v) = true ->
       ((0 <= fst v)%Q ->
          (inject_Z (fst z) <= fst v)%Q /\ (fst v < inject_Z (fst z) + 1)%Q) /\
       ((fst v <= 0)%Q ->
          (fst v <= inject_Z (fst z))%Q /\ (inject_Z (fst z) - 1 < fst v)%Q)) /\
      (clear_of_integers (1 # 1048576) (snd v) = true ->
       ((0 <= snd v)%Q ->
          (inject_Z (snd z) <= snd v)%Q /\ (snd v < inject_Z (snd z) + 1)%Q) /\
       ((snd v <= 0)%Q ->
          (snd v <= inject_Z (snd z))%Q /\ (inject_Z (snd z) - 1 < snd v)%Q))).
Proof.
  cbv zeta. split; [split; [reflexivity|vm_compute; reflexivity]|].
  assert (Hlen : forall rot : list pixel,
             In rot (rotated_target_inds_of float64_trig cen target_inds) ->
             length (map (fun g => translate g rot) grid) = length grid).
  { intros rot _. apply length_map. }
  split.
  { unfold shift_3d. rewrite (flat_map_length_const _ (length grid)) by exact Hlen.
    unfold rotated_target_inds_of. rewrite length_map. reflexivity. }
  split.
  { intros k i g Hk Hg. apply shift_3d_nth_error; assumption. }
  split.
  { intros k t Hr Hc. unfold rotate_px. destruct t as [r c]. cbn [fst snd] in *.
    f_equal; apply astype_int_inject; rewrite <- ?Hr, <- ?Hc; ring. }
  intros k t. unfold rotate_px, rotate_exact. cbn [fst snd].
  split; intros _; (split; [apply astype_int_nonneg|apply astype_int_nonpos]).
Qed.

Lemma rotations_cross_grid_and_truncate_witness :
  nth_error (shift_3d (rotated_target_inds_of
                         float64_trig (target_centroid_of bar_inds) bar_inds)
                      [(0, 0); (5, 7)])
            (4 * 2 + 1) =
    Some (translate (5, 7)
            (map (rotate_px float64_trig (target_centroid_of bar_inds) 4) bar_inds)) /\
  (fst (rotate_exact float64_trig (target_centroid_of bar_inds) 4 (0%Z, 0%Z))
   <= inject_Z (fst (rotate_px float64_trig (target_centroid_of bar_inds) 4
                               (0%Z, 0%Z))))%Q.
Proof.
  pose proof (rotations_cross_grid_and_truncate
                (target_centroid_of bar_inds) bar_inds [(0, 0); (5, 7)])
    as [_ [_ [Hnth [_ Hcast]]]].
  split.
  - apply (Hnth 4%nat 1%nat (5, 7)); [lia|reflexivity].
  - apply (proj1 (Hcast 4 (0, 0))); vm_compute; [reflexivity|discriminate].
Defined.

(** C8 (counterexample).  Rotating [bar_inds] by a quarter turn sends the
    pixel (0, 0) to row -7/4 before the cast; the cast yields -1, which is
    not a nearest integer (that is -2). *)
Lemma rotated_index_is_not_nearest :
  let cen := target_centroid_of bar_inds in
  nth_error (rotated_target_inds_of float64_trig cen bar_inds) 4 =
    Some [(-1, 1); (0, 1); (0, 1); (2, 1)] /\
  rotate_px float64_trig cen 4 (0, 0) = (-1, 1) /\
  (fst (rotate_exact float64_trig cen 4 (0%Z, 0%Z)) == - (7 # 4))%Q /\
  ~ nearest_int (fst (rotate_exact float64_trig cen 4 (0, 0)))
                (fst (rotate_px float64_trig cen 4 (0, 0))).
Proof.
  cbv zeta. split; [vm_compute; reflexivity|].
  split; [vm_compute; reflexivity|]. split; [vm_compute; reflexivity|].
  intros H. vm_compute in H. apply H. reflexivity.
Qed.

End Rotations.

(** ** The occlusion evaluator, entry by entry *)

Section Evaluator.
Import Np BinHeapEnv Scenes.

Lemma reflect_px_in_range (h w : Z) (p : pixel) :
  0 <= fst p < h -> 0 <= snd p < w -> reflect_px h w p = p.
Proof.
  intros Hr Hc. unfold reflect_px.
  destruct (Z.geb_spec (fst p) h); [lia|].
  destruct (Z.geb_spec (snd p) w); [lia|].
  destruct p; reflexivity.
Qed.

(** The in-bounds mask, read on the reflected index, tells whether the
    index before the reflection was inside the image. *)
Lemma in_bounds_reflect (h w : Z) (p : pixel) :
  in_bounds_px (reflect_px h w p) = true <->
  (0 <= fst p < h /\ 0 <= snd p < w).
Proof.
  unfold in_bounds_px, reflect_px; simpl.
  rewrite andb_true_iff, !Z.leb_le.
  destruct (Z.geb_spec (fst p) h); destruct (Z.geb_spec (snd p) w); lia.
Qed.

Lemma candidates_of_inv (e : env) (target_inds : list pixel)
      (shifted sti : list (list pixel)) (inb vis : list (list bool)) :
  candidates_of e target_inds shifted = Some (sti, inb, vis) ->
  sti = reflect (height e) (width e) shifted /\
  inb = in_bounds_mask_of sti /\
  exists pd fd,
    gather (height e) (width e) (render_plane_depth e) sti = Some pd /\
    gather (height e) (width e) (render_full_depth e) sti = Some fd /\
    vis = visible_shifted_target_mask_of
            (map (fun row =>
                    zipWith Qminus row
                      (target_depth_offset_of (render_plane_depth e)
                                              (render_depth e) target_inds)) pd)
            fd inb.
Proof.
  unfold candidates_of, render_target_modal_mask, shifted_target_depths_of.
  cbv zeta beta iota. intros H.
  destruct (gather (height e) (width e) (render_plane_depth e)
                   (reflect (height e) (width e) shifted)) as [pd|] eqn:Epd;
    [|discriminate].
  simpl in H.
  destruct (gather (height e) (width e) (render_full_depth e)
                   (reflect (height e) (width e) shifted)) as [fd|] eqn:Efd;
    [|discriminate].
  simpl in H. inversion H; subst; clear H.
  split; [reflexivity|]. split; [reflexivity|].
  exists pd, fd. auto.
Qed.

Lemma gather_nth_error {A : Type} (h w : Z) (a : image A)
      (inds : list (list pixel)) (vals : list (list A))
      (j l : nat) (row : list pixel) (p : pixel) :
  gather h w a inds = Some vals ->
  nth_error inds j = Some row -> nth_error row l = Some p ->
  exists vrow v,
    nth_error vals j = Some vrow /\ length vrow = length row /\
    nth_error vrow l = Some v /\ getitem2 h w a p = Some v.
Proof.
  intros Hg Hj Hl. unfold gather in Hg.
  destruct (mapM_nth_error _ _ _ _ _ Hg Hj) as [vrow [Hrow Hv]].
  destruct (mapM_nth_error _ _ _ _ _ Hrow Hl) as [v [Hget Hvl]].
  exists vrow, v. repeat split; auto. eapply mapM_length; eauto.
Qed.

(** Entry [(j, l)] of the visibility mask. *)
Lemma visible_entry (e : env) (target_inds : list pixel)
      (shifted sti : list (list pixel)) (inb vis : list (list bool))
      (j l : nat) (row : list pixel) (s t : pixel) :
  candidates_of e target_inds shifted = Some (sti, inb, vis) ->
  nth_error shifted j = Some row -> nth_error row l = Some s ->
  nth_error target_inds l = Some t ->
  exists vrow pv fv,
    nth_error vis j = Some vrow /\
    getitem2 (height e) (width e) (render_plane_depth e)
             (reflect_px (height e) (width e) s) = Some pv /\
    getitem2 (height e) (width e) (render_full_depth e)
             (reflect_px (height e) (width e) s) = Some fv /\
    nth_error vrow l =
      Some (Qltb (pv - (at_px (render_plane_depth e) t - at_px (render_depth e) t)) fv
            && in_bounds_px (reflect_px (height e) (width e) s)).
Proof.
  intros Hc Hj Hl Ht.
  destruct (candidates_of_inv _ _ _ _ _ _ Hc) as [Hsti [Hinb [pd [fd [Hpd [Hfd Hvis]]]]]].
  assert (Hj' : nth_error sti j = Some (map (reflect_px (height e) (width e)) row)).
  { subst sti. unfold reflect. apply map_nth_error. assumption. }
  assert (Hl' : nth_error (map (reflect_px (height e) (width e)) row) l
                = Some (reflect_px (height e) (width e) s)).
  { apply map_nth_error. assumption. }
  destruct (gather_nth_error _ _ _ _ _ _ _ _ _ Hpd Hj' Hl')
    as [prow [pv [Hp1 [_ [Hp2 Hp3]]]]].
  destruct (gather_nth_error _ _ _ _ _ _ _ _ _ Hfd Hj' Hl')
    as [frow [fv [Hf1 [_ [Hf2 Hf3]]]]].
  set (off := target_depth_offset_of (render_plane_depth e) (render_depth e) target_inds) in *.
  assert (Hoff : nth_error off l
                 = Some (at_px (render_plane_depth e) t - at_px (render_depth e) t)%Q).
  { unfold off, target_depth_offset_of.
    apply (map_nth_error
             (fun p => (at_px (render_plane_depth e) p - at_px (render_depth e) p)%Q)).
    assumption. }
  exists (zipWith andb (zipWith Qltb (zipWith Qminus prow off) frow)
                  (map in_bounds_px (map (reflect_px (height e) (width e)) row))),
         pv, fv.
  split.
  { subst vis. unfold visible_shifted_target_mask_of.
    apply zipWith_nth_error.
    - apply zipWith_nth_error; [|assumption].
      apply (map_nth_error (fun row0 => zipWith Qminus row0 off)). assumption.
    - subst inb. unfold in_bounds_mask_of. apply map_nth_error. assumption. }
  split; [assumption|]. split; [assumption|].
  apply zipWith_nth_error.
  - apply zipWith_nth_error; [|assumption].
    apply zipWith_nth_error; assumption.
  - apply map_nth_error. assumption.
Qed.

(** C6.  For every candidate [j] and pixel [l], with [s] the transformed
    index before reflection and [t] the original amodal pixel: the pixel is
    classified visible iff [s] is inside the image and the plane-only depth
    at [s] minus the depth offset of [t] is strictly less than the
    full-scene depth at [s].  In particular a pixel whose index before
    reflection is out of bounds is never visible. *)
Theorem visible_iff_in_front (e : env) (target_inds : list pixel)
        (shifted sti : list (list pixel)) (inb vis : list (list bool))
        (j l : nat) (row : list pixel) (s t : pixel) :
  candidates_of e target_inds shifted = Some (sti, inb, vis) ->
  nth_error shifted j = Some row -> nth_error row l = Some s ->
  nth_error target_inds l = Some t ->
  exists vrow b,
    nth_error vis j = Some vrow /\ nth_error vrow l = Some b /\
    (b = true <->
       (0 <= fst s < height e /\ 0 <= snd s < width e) /\
       (at_px (render_plane_depth e) s
        - (at_px (render_plane_depth e) t - at_px (render_depth e) t)
        < at_px (render_full_depth e) s)%Q).
Proof.
  intros Hc Hj Hl Ht.
  destruct (visible_entry _ _ _ _ _ _ _ _ _ _ _ Hc Hj Hl Ht)
    as [vrow [pv [fv [Hv [Hp [Hf Hb]]]]]].
  eexists vrow, _. split; [exact Hv|]. split; [exact Hb|].
  rewrite andb_true_iff, in_bounds_reflect, Qltb_lt.
  split.
  - intros [Hlt [Hr Hcn]]. split; [auto|].
    rewrite (reflect_px_in_range _ _ _ Hr Hcn) in Hp, Hf.
    rewrite (getitem2_in_range _ _ _ _ Hr Hcn) in Hp.
    rewrite (getitem2_in_range _ _ _ _ Hr Hcn) in Hf.
    inversion Hp; inversion Hf; subst. assumption.
  - intros [[Hr Hcn] Hlt]. split; [|auto].
    rewrite (reflect_px_in_range _ _ _ Hr Hcn) in Hp, Hf.
    rewrite (getitem2_in_range _ _ _ _ Hr Hcn) in Hp.
    rewrite (getitem2_in_range _ _ _ _ Hr Hcn) in Hf.
    inversion Hp; inversion Hf; subst. assumption.
Qed.

Lemma visible_iff_in_front_witness :
  exists vrow b,
    nth_error [[false]] 0 = Some vrow /\ nth_error vrow 0 = Some b /\
    (b = true <->
       (0 <= fst (0, 1) < height hidden_env /\ 0 <= snd (0, 1) < width hidden_env) /\
       (at_px (render_plane_depth hidden_env) (0%Z, 1%Z)
        - (at_px (render_plane_depth hidden_env) (0%Z, 1%Z)
           - at_px (render_depth hidden_env) (0%Z, 1%Z))
        < at_px (render_full_depth hidden_env) (0%Z, 1%Z))%Q).
Proof.
  apply (visible_iff_in_front hidden_env [(0, 1)] [[(0, 1)]] [[(0, 1)]]
                              [[true]] [[false]] 0 0 [(0, 1)] (0, 1) (0, 1));
    vm_compute; reflexivity.
Defined.

End Evaluator.

(** ** The similarity scorer: which pixels are matched *)

Section Scorer.
Import Np BinHeapEnv Scenes.

Lemma select_row_In (row : list pixel) (m : list bool) (p : pixel) :
  In p (select_row row m) <->
  exists l, nth_error row l = Some p /\ nth_error m l = Some true.
Proof.
  unfold select_row. revert m.
  induction row as [|x row IH]; intros m.
  - simpl. split; [tauto|]. intros [[|l] [H _]]; discriminate.
  - destruct m as [|b m].
    + simpl. split; [tauto|]. intros [[|l] [_ H]]; discriminate.
    + simpl. destruct b; simpl.
      * rewrite IH. split.
        -- intros [<-|[l Hl]]; [exists 0%nat; auto|exists (S l); auto].
        -- intros [[|l] [H1 H2]]; simpl in *.
           ++ left; congruence.
           ++ right; eauto.
      * rewrite IH. split.
        -- intros [l Hl]. exists (S l); auto.
        -- intros [[|l] [H1 H2]]; simpl in *; [discriminate|eauto].
Qed.

Lemma select_In (inds : list (list pixel)) (mask : list (list bool)) (p : pixel) :
  In p (select inds mask) <->
  exists j row mrow l,
    nth_error inds j = Some row /\ nth_error mask j = Some mrow /\
    nth_error row l = Some p /\ nth_error mrow l = Some true.
Proof.
  unfold select. rewrite in_concat. split.
  - intros [x [Hx Hp]]. apply In_nth_error in Hx as [j Hj].
    apply zipWith_nth_error_inv in Hj as [row [mrow [H1 [H2 ->]]]].
    apply select_row_In in Hp as [l [H3 H4]].
    exists j, row, mrow, l. auto.
  - intros [j [row [mrow [l [H1 [H2 [H3 H4]]]]]]].
    exists (select_row row mrow). split.
    + eapply nth_error_In. apply zipWith_nth_error; eassumption.
    + apply select_row_In. eauto.
Qed.

(** A reflected index that is in bounds is the index before reflection. *)
Lemma reflected_in_bounds (h w : Z) (s : pixel) :
  in_bounds_px (reflect_px h w s) = true ->
  reflect_px h w s = s /\ 0 <= fst s < h /\ 0 <= snd s < w.
Proof.
  intros H. apply in_bounds_reflect in H as [Hr Hc].
  split; [apply reflect_px_in_range; assumption|auto].
Qed.

(** Pixels kept by a mask of the form
    [np.logical_and(keep[:,None], in_bounds_mask)]. *)
Lemma select_keep_In (h w : Z) (shifted : list (list pixel)) (keep : list bool)
      (p : pixel) :
  In p (select (reflect h w shifted)
               (zipWith (fun (k : bool) inb => map (andb k) inb) keep
                        (in_bounds_mask_of (reflect h w shifted)))) <->
  exists j row l,
    nth_error shifted j = Some row /\ nth_error keep j = Some true /\
    nth_error row l = Some p /\ (0 <= fst p < h /\ 0 <= snd p < w).
Proof.
  rewrite select_In. unfold reflect, in_bounds_mask_of. split.
  - intros [j [row [mrow [l [H1 [H2 [H3 H4]]]]]]].
    apply zipWith_nth_error_inv in H2 as [k [inb [Hk [Hinb ->]]]].
    rewrite nth_error_map in H1, Hinb.
    destruct (nth_error shifted j) as [row0|] eqn:Er; [|discriminate].
    simpl in H1. rewrite nth_error_map in Hinb. rewrite Er in Hinb. simpl in Hinb.
    inversion H1; subst row; clear H1. inversion Hinb; subst inb; clear Hinb.
    rewrite !nth_error_map in H4. rewrite nth_error_map in H3.
    destruct (nth_error row0 l) as [s|] eqn:Es; [|discriminate].
    simpl in H3, H4. inversion H3; subst p; clear H3.
    injection H4 as H5. apply andb_true_iff in H5 as [Hk1 Hb].
    destruct (reflected_in_bounds _ _ _ Hb) as [E [Hr Hc]].
    exists j, row0, l. rewrite E. rewrite Hk1 in Hk. auto.
  - intros [j [row [l [H1 [H2 [H3 [Hr Hc]]]]]]].
    exists j, (map (reflect_px h w) row),
           (map (andb true) (map in_bounds_px (map (reflect_px h w) row))), l.
    split; [apply map_nth_error; assumption|]. split.
    { apply (zipWith_nth_error (fun (k : bool) inb => map (andb k) inb)).
      - assumption.
      - apply map_nth_error. apply map_nth_error. assumption. }
    split.
    { rewrite nth_error_map, H3. simpl.
      rewrite (reflect_px_in_range h w p Hr Hc). reflexivity. }
    rewrite !nth_error_map, H3. simpl.
    replace (in_bounds_px (reflect_px h w p)) with true; [reflexivity|].
    symmetry. apply in_bounds_reflect. auto.
Qed.

Lemma zipWith_map_l {X Y Z' W : Type} (f : Y -> Z' -> W) (g : X -> Y) :
  forall (l : list X) (m : list Z'),
    zipWith f (map g l) m = zipWith (fun a b => f (g a) b) l m.
Proof.
  induction l as [|a l IH]; intros [|b m]; simpl; auto. rewrite IH; reflexivity.
Qed.

Lemma occluded_matching_In (e : env) (target_inds : list pixel)
      (shifted sti : list (list pixel)) (inb vis : list (list bool)) (p : pixel) :
  candidates_of e target_inds shifted = Some (sti, inb, vis) ->
  In p (occluded_matching sti inb vis) <->
  exists j row vrow l,
    nth_error shifted j = Some row /\
    nth_error vis j = Some vrow /\ any vrow = false /\
    nth_error row l = Some p /\
    (0 <= fst p < height e /\ 0 <= snd p < width e).
Proof.
  intros Hc.
  destruct (candidates_of_inv _ _ _ _ _ _ Hc) as [Hsti [Hinb _]].
  unfold occluded_matching, match_mask_of.
  rewrite <- (zipWith_map_l (fun (k : bool) inb0 => map (andb k) inb0)
                            (fun v => negb (any v))).
  rewrite Hinb, Hsti. rewrite select_keep_In. split.
  - intros [j [row [l [H1 [H2 [H3 H4]]]]]].
    rewrite nth_error_map in H2.
    destruct (nth_error vis j) as [vrow|] eqn:Ev; [|discriminate].
    simpl in H2. injection H2 as H2. apply negb_true_iff in H2.
    exists j, row, vrow, l. auto.
  - intros [j [row [vrow [l [H1 [H2 [H3 [H4 H5]]]]]]]].
    exists j, row, l. split; [assumption|]. split; [|auto].
    rewrite nth_error_map. rewrite H2. simpl. rewrite H3. reflexivity.
Qed.

Lemma iou_matching_In (iou_thresh : Z -> Q) (e : env) (target_inds : list pixel)
      (shifted sti : list (list pixel)) (inb vis : list (list bool)) (p : pixel) :
  candidates_of e target_inds shifted = Some (sti, inb, vis) ->
  In p (iou_matching iou_thresh e target_inds sti inb vis) <->
  exists j row iou l,
    nth_error shifted j = Some row /\
    nth_error (ious_of e target_inds sti vis) j = Some iou /\
    (iou_thresh (count_true (target_inds_mask_of e target_inds)) <= iou)%Q /\
    nth_error row l = Some p /\
    (0 <= fst p < height e /\ 0 <= snd p < width e).
Proof.
  intros Hc.
  destruct (candidates_of_inv _ _ _ _ _ _ Hc) as [Hsti [Hinb _]].
  unfold iou_matching, iou_mask_of.
  rewrite <- (zipWith_map_l (fun (k : bool) inb0 => map (andb k) inb0)
                (Qle_bool (iou_thresh (count_true (target_inds_mask_of e target_inds))))).
  remember (ious_of e target_inds sti vis) as ious eqn:Eious.
  rewrite Hinb, Hsti. rewrite select_keep_In. split.
  - intros [j [row [l [H1 [H2 [H3 H4]]]]]].
    rewrite nth_error_map in H2.
    destruct (nth_error ious j) as [iou|] eqn:Ev; [|discriminate].
    simpl in H2. injection H2 as H2. apply Qle_bool_iff in H2.
    exists j, row, iou, l. auto.
  - intros [j [row [iou [l [H1 [H2 [H3 [H4 H5]]]]]]]].
    exists j, row, l. split; [assumption|]. split; [|auto].
    rewrite nth_error_map, H2. simpl.
    apply Qle_bool_iff in H3. rewrite H3. reflexivity.
Qed.

(** C4 (as amended).  Matching is decided per candidate, the selection per
    pixel.  In the fully-occluded branch a pixel [p] is kept iff it is pixel
    [l] of some candidate [j] that has no visible pixel and [p] itself lies
    inside the image; in the other branch (before the fallback) iff it is
    pixel [l] of some candidate [j] whose IoU reaches the threshold and [p]
    itself lies inside the image.  So no out-of-bounds pixel is ever kept,
    and a matching candidate that is only partly in bounds still
    contributes its in-bounds pixels. *)
Theorem matched_pixels_are_in_bounds_pixels
        (iou_thresh : Z -> Q) (e : env) (target_inds : list pixel)
        (shifted sti : list (list pixel)) (inb vis : list (list bool))
        (p : pixel) :
  candidates_of e target_inds shifted = Some (sti, inb, vis) ->
  (In p (occluded_matching sti inb vis) <->
     exists j row vrow l,
       nth_error shifted j = Some row /\
       nth_error vis j = Some vrow /\ any vrow = false /\
       nth_error row l = Some p /\
       (0 <= fst p < height e /\ 0 <= snd p < width e)) /\
  (In p (iou_matching iou_thresh e target_inds sti inb vis) <->
     exists j row iou l,
       nth_error shifted j = Some row /\
       nth_error (ious_of e target_inds sti vis) j = Some iou /\
       (iou_thresh (count_true (target_inds_mask_of e target_inds)) <= iou)%Q /\
       nth_error row l = Some p /\
       (0 <= fst p < height e /\ 0 <= snd p < width e)).
Proof.
  intros Hc. split.
  - eapply occluded_matching_In; eassumption.
  - eapply iou_matching_In; eassumption.
Qed.

Lemma matched_pixels_are_in_bounds_pixels_witness :
  In (0, 1) (occluded_matching [[(0, 1)]] [[true]] [[false]]) <->
  exists j row vrow l,
    nth_error [[(0, 1)]] j = Some row /\
    nth_error [[false]] j = Some vrow /\ any vrow = false /\
    nth_error row l = Some (0, 1) /\
    (0 <= fst (0, 1) < height hidden_env /\ 0 <= snd (0, 1) < width hidden_env).
Proof.
  assert (Hc : candidates_of hidden_env [(0, 1)] [[(0, 1)]]
               = Some ([[(0, 1)]], [[true]], [[false]]))
    by (vm_compute; reflexivity).
  exact (proj1 (matched_pixels_are_in_bounds_pixels
                  iou_thresh_2d hidden_env [(0, 1)] [[(0, 1)]] [[(0, 1)]]
                  [[true]] [[false]] (0, 1) Hc)).
Defined.

(** C4 (counterexample).  In [covered_env] the pixel (5, 100) is in the
    match array although every candidate that covers it has a pixel out of
    bounds: it comes from the candidate whose other pixel lands in column
    101. *)
Lemma partly_out_of_bounds_candidate_contributes :
  exists m,
    matching_2d covered_env = Some m /\ In (5, 100) m /\
    forall row,
      In row (shift_2d (target_inds_in covered_env) (grid_in covered_env)) ->
      In (5, 100) row ->
      exists s, In s row /\ in_bounds_px (reflect_px 38 101 s) = false.
Proof.
  eexists. split; [vm_compute; reflexivity|]. split.
  - apply existsb_pixel_eqb. vm_compute; reflexivity.
  - intros row Hrow Hp.
    assert (H : forallb
                  (fun row0 =>
                     implb (existsb (pixel_eqb (5, 100)) row0)
                           (existsb (fun s => negb (in_bounds_px (reflect_px 38 101 s)))
                                    row0))
                  (shift_2d (target_inds_in covered_env) (grid_in covered_env)) = true)
      by (vm_compute; reflexivity).
    rewrite forallb_forall in H. specialize (H row Hrow).
    apply existsb_pixel_eqb in Hp. rewrite Hp in H. simpl in H.
    apply existsb_exists in H as [s [Hs Hb]].
    exists s. split; [assumption|]. apply negb_true_iff. assumption.
Qed.

(** In the branch for a target that is not fully occluded the match array
    is never empty. *)
Lemma visible_regime_nonempty (iou_thresh : Z -> Q) (e : env)
      (target_inds : list pixel) (shifted : list (list pixel)) (m : list pixel) :
  any (target_inds_mask_of e target_inds) = true ->
  matching_target_inds_of iou_thresh e target_inds shifted = Some m ->
  m <> [].
Proof.
  intros Hany Hm. unfold matching_target_inds_of in Hm.
  destruct (candidates_of e target_inds shifted) as [[[sti inb] vis]|];
    [|discriminate].
  simpl in Hm. rewrite Hany in Hm. simpl in Hm. injection Hm as <-.
  unfold fallback.
  destruct (any_nonzero (iou_matching iou_thresh e target_inds sti inb vis)) eqn:E;
    simpl.
  - intros H. rewrite H in E. discriminate.
  - intros H. rewrite H in Hany. discriminate.
Qed.

Lemma any_nonzero_all_zero (l : list pixel) : negb (any_nonzero l) = all_zero l.
Proof.
  unfold any_nonzero, all_zero.
  induction l as [|p l IH]; simpl; [reflexivity|].
  rewrite negb_orb, IH. f_equal.
  unfold pixel_eqb; simpl. rewrite negb_orb, !negb_involutive. reflexivity.
Qed.

Lemma all_zero_spec (l : list pixel) :
  all_zero l = true <-> forall p, In p l -> p = (0, 0).
Proof.
  unfold all_zero. rewrite forallb_forall. split; intros H p Hp.
  - apply pixel_eqb_eq. auto.
  - apply pixel_eqb_eq. auto.
Qed.

(** C10.  In the branch for a target that is not fully occluded the result
    is the original [target_inds] exactly when every entry of the matched
    index array is zero, and the matched array otherwise.  That covers the
    empty array (no candidate matched) and also a non-empty array whose
    pixels are all (0, 0): in [corner_env] exactly one candidate matches, its
    only in-bounds pixel is (0, 0), and the search returns the four original
    target pixels instead of that match. *)
Theorem fallback_fires_iff_all_zero :
  (forall (iou_thresh : Z -> Q) (e : env) (target_inds : list pixel)
          (shifted sti : list (list pixel)) (inb vis : list (list bool)),
      candidates_of e target_inds shifted = Some (sti, inb, vis) ->
      any (target_inds_mask_of e target_inds) = true ->
      let matched := iou_matching iou_thresh e target_inds sti inb vis in
      matching_target_inds_of iou_thresh e target_inds shifted =
        Some (if all_zero matched then target_inds else matched) /\
      (all_zero matched = true <-> forall p, In p matched -> p = (0, 0))) /\
  (exists sti inb vis,
      candidates_of corner_env (target_inds_in corner_env)
                    (shift_2d (target_inds_in corner_env) (grid_in corner_env))
        = Some (sti, inb, vis) /\
      any (target_inds_mask_of corner_env (target_inds_in corner_env)) = true /\
      iou_matching iou_thresh_2d corner_env (target_inds_in corner_env) sti inb vis
        = [(0, 0)] /\
      matching_2d corner_env = Some [(0, 0); (0, 3); (1, 1); (3, 0)]).
Proof.
  split.
  - intros iou_thresh e target_inds shifted sti inb vis Hc Hany. cbv zeta.
    split; [|apply all_zero_spec].
    unfold matching_target_inds_of. rewrite Hc. simpl. rewrite Hany. simpl.
    unfold fallback. rewrite any_nonzero_all_zero. reflexivity.
  - eexists. eexists. eexists.
    split; [vm_compute; reflexivity|].
    split; [vm_compute; reflexivity|].
    split; vm_compute; reflexivity.
Qed.

Lemma fallback_fires_iff_all_zero_witness :
  matching_target_inds_of iou_thresh_2d single_env [(0, 1)] [[(0, 0)]] =
    Some (if all_zero (iou_matching iou_thresh_2d single_env [(0, 1)]
                                    [[(0, 0)]] [[true]] [[true]])
          then [(0, 1)]
          else iou_matching iou_thresh_2d single_env [(0, 1)]
                            [[(0, 0)]] [[true]] [[true]]).
Proof.
  apply (proj1 fallback_fires_iff_all_zero iou_thresh_2d single_env [(0, 1)]
               [[(0, 0)]] [[(0, 0)]] [[true]] [[true]]);
    vm_compute; reflexivity.
Defined.

End Scorer.

(** ** Index safety of the transformer *)

Section IndexSafety.
Import Np BinHeapEnv Scenes.

Lemma mapM_None_In {A B : Type} (f : A -> option B) (l : list A) (a : A) :
  In a l -> f a = None -> mapM f l = None.
Proof.
  induction l as [|x l IH]; intros Hin Hf; [contradiction|].
  simpl. destruct Hin as [->|Hin].
  - rewrite Hf. reflexivity.
  - destruct (f x); [|reflexivity]. rewrite (IH Hin Hf). reflexivity.
Qed.

Lemma candidates_of_index_error (e : env) (target_inds : list pixel)
      (shifted : list (list pixel)) (j l : nat) (row : list pixel) (s : pixel) :
  nth_error shifted j = Some row -> nth_error row l = Some s ->
  getitem2 (height e) (width e) (render_plane_depth e)
           (reflect_px (height e) (width e) s) = None ->
  candidates_of e target_inds shifted = None.
Proof.
  intros Hj Hl Hg.
  unfold candidates_of, render_target_modal_mask, shifted_target_depths_of.
  cbv zeta beta iota.
  replace (gather (height e) (width e) (render_plane_depth e)
                  (reflect (height e) (width e) shifted)) with (@None (list (list Q)));
    [reflexivity|].
  symmetry. unfold gather.
  apply (mapM_None_In _ _ (map (reflect_px (height e) (width e)) row)).
  - unfold reflect. apply in_map. eapply nth_error_In; eassumption.
  - apply (mapM_None_In _ _ (reflect_px (height e) (width e) s)); [|assumption].
    apply in_map. eapply nth_error_In; eassumption.
Qed.

Lemma matching_3d_index_error (tr : trig) (e : env) (j l : nat)
      (row : list pixel) (s : pixel) :
  nth_error (shift_3d (rotated_target_inds_of tr
                         (target_centroid_of (target_inds_in e)) (target_inds_in e))
                      (grid_in e)) j = Some row ->
  nth_error row l = Some s ->
  getitem2 (height e) (width e) (render_plane_depth e)
           (reflect_px (height e) (width e) s) = None ->
  matching_3d tr e = None.
Proof.
  intros Hj Hl Hg.
  unfold matching_3d, render_target_modal_mask. cbv zeta beta iota.
  unfold matching_target_inds_of.
  unfold grid_in, target_inds_in in Hj.
  rewrite (candidates_of_index_error e _ _ _ _ _ _ Hj Hl Hg). reflexivity.
Qed.

(** C3 (evaluated on the failing input).  For the rod of [rod_env] the 3D
    search raises [IndexError]: the candidate of the quarter turn
    (rotation 4) with grid offset 37 sends the rod's last pixel (10, 100) to
    row 87 = 2 * 38 + 11, the reflection gives row -50, and -50 is not a
    legal index into an axis of length 38. *)
Theorem rotation_pushes_index_out_of_range :
  let target_inds := target_inds_in rod_env in
  let cen := target_centroid_of target_inds in
  let grid := grid_in rod_env in
  nth_error target_inds 100 = Some (10, 100) /\
  nth_error grid 37 = Some (27, -50) /\
  rotate_px float64_trig cen 4 (10, 100) = (60, 50) /\
  nth_error (shift_3d (rotated_target_inds_of float64_trig cen target_inds) grid)
            (4 * length grid + 37)
    = Some (translate (27, -50) (map (rotate_px float64_trig cen 4) target_inds)) /\
  nth_error (translate (27, -50) (map (rotate_px float64_trig cen 4) target_inds)) 100
    = Some (87, 0) /\
  reflect_px (height rod_env) (width rod_env) (87, 0) = (-50, 0) /\
  getitem2 (height rod_env) (width rod_env) (render_plane_depth rod_env) (-50, 0) = None /\
  matching_3d float64_trig rod_env = None /\
  find_target_distribution_3d float64_trig rod_env = None.
Proof.
  cbv zeta.
  assert (Hg : nth_error (grid_in rod_env) 37 = Some (27, -50))
    by (vm_compute; reflexivity).
  assert (Hrow : nth_error
            (shift_3d (rotated_target_inds_of float64_trig
                         (target_centroid_of (target_inds_in rod_env))
                         (target_inds_in rod_env)) (grid_in rod_env))
            (4 * length (grid_in rod_env) + 37)
          = Some (translate (27, -50)
                    (map (rotate_px float64_trig
                            (target_centroid_of (target_inds_in rod_env)) 4)
                         (target_inds_in rod_env)))).
  { apply (shift_3d_nth_error float64_trig _ _ _ 4 37 (27, -50)); [lia|exact Hg]. }
  assert (Hpx : nth_error
            (translate (27, -50)
               (map (rotate_px float64_trig
                       (target_centroid_of (target_inds_in rod_env)) 4)
                    (target_inds_in rod_env))) 100 = Some (87, 0))
    by (vm_compute; reflexivity).
  assert (Hm : matching_3d float64_trig rod_env = None).
  { assert (Hget : getitem2 (height rod_env) (width rod_env)
                            (render_plane_depth rod_env)
                            (reflect_px (height rod_env) (width rod_env) (87, 0))
                   = None) by (vm_compute; reflexivity).
    exact (matching_3d_index_error float64_trig rod_env _ 100 _ (87, 0)
                                   Hrow Hpx Hget). }
  split; [vm_compute; reflexivity|]. split; [exact Hg|].
  split; [vm_compute; reflexivity|]. split; [exact Hrow|]. split; [exact Hpx|].
  split; [vm_compute; reflexivity|]. split; [vm_compute; reflexivity|].
  split; [exact Hm|].
  unfold find_target_distribution_3d. rewrite Hm. reflexivity.
Qed.

End IndexSafety.

(** ** Range of the 2D candidates *)

Section Grid.
Import Np BinHeapEnv Scenes.

Lemma astype_int_div (a b : Z) :
  0 < b -> astype_int (inject_Z a / inject_Z b) = Z.quot a b.
Proof.
  intros Hb. destruct b as [|b|b]; try lia.
  unfold astype_int, Qdiv, Qinv, Qmult, inject_Z; simpl.
  rewrite Z.mul_1_r. reflexivity.
Qed.

Lemma linspace_int_range (stop num v : Z) :
  0 <= stop -> 1 < num -> In v (linspace_int stop num) -> 0 <= v <= stop.
Proof.
  intros Hs Hn Hin. unfold linspace_int in Hin.
  apply in_map_iff in Hin as [k [<- Hk]]. apply arange_In in Hk.
  rewrite astype_int_div by lia.
  rewrite Z.quot_div_nonneg by nia.
  split.
  - apply Z.div_pos; nia.
  - apply Z.div_le_upper_bound; nia.
Qed.

Lemma sumZ_range (l : list Z) (hi : Z) :
  (forall x, In x l -> 0 <= x <= hi) ->
  0 <= sumZ l <= hi * Z.of_nat (length l).
Proof.
  induction l as [|x l IH]; intros H; [simpl; lia|].
  specialize (IH (fun y Hy => H y (or_intror Hy))).
  specialize (H x (or_introl eq_refl)).
  change (sumZ (x :: l)) with (x + sumZ l).
  change (length (x :: l)) with (S (length l)).
  rewrite Nat2Z.inj_succ. nia.
Qed.

Lemma centroid_range (l : list Z) (hi : Z) :
  l <> [] -> (forall x, In x l -> 0 <= x <= hi) ->
  0 <= astype_int (mean l) <= hi.
Proof.
  intros Hne H. unfold mean.
  assert (Hlen : 0 < Z.of_nat (length l)) by (destruct l; [congruence|simpl; lia]).
  rewrite astype_int_div by assumption.
  pose proof (sumZ_range l hi H) as [H0 H1].
  rewrite Z.quot_div_nonneg by lia.
  split.
  - apply Z.div_pos; lia.
  - apply Z.div_le_upper_bound; lia.
Qed.

Lemma target_inds_in_range (e : env) (t : pixel) :
  In t (target_inds_in e) ->
  0 <= fst t < height e /\ 0 <= snd t < width e.
Proof.
  unfold target_inds_in, target_inds_of. intros H.
  apply where_gt_In in H. tauto.
Qed.

Lemma grid_in_range (e : env) (g : pixel) :
  0 < height e -> 0 < width e -> target_inds_in e <> [] ->
  In g (grid_in e) ->
  - height e < fst g < height e /\ - width e < snd g < width e.
Proof.
  intros Hh Hw Hne Hin. unfold grid_in, grid_of in Hin.
  apply in_map_iff in Hin as [g0 [<- Hg0]].
  unfold meshgrid_flat in Hg0. apply in_flat_map in Hg0 as [xi [Hx Hy]].
  apply in_map_iff in Hy as [yj [<- Hy]].
  apply linspace_int_range in Hx; [|lia|reflexivity].
  apply linspace_int_range in Hy; [|lia|reflexivity].
  assert (Hr : 0 <= astype_int (fst (target_centroid_of (target_inds_in e)))
               <= height e - 1).
  { apply centroid_range.
    - destruct (target_inds_in e); [congruence|discriminate].
    - intros x Hx'. apply in_map_iff in Hx' as [t [<- Ht]].
      apply target_inds_in_range in Ht. lia. }
  assert (Hc : 0 <= astype_int (snd (target_centroid_of (target_inds_in e)))
               <= width e - 1).
  { apply centroid_range.
    - destruct (target_inds_in e); [congruence|discriminate].
    - intros x Hx'. apply in_map_iff in Hx' as [t [<- Ht]].
      apply target_inds_in_range in Ht. lia. }
  cbn [fst snd]. lia.
Qed.

(** Every index of every 2D candidate is, after the reflection, a legal
    index: it lies in [-height, height) x [-width, width). *)
Lemma shift_2d_reflected_legal (e : env) (row : list pixel) (s : pixel) :
  0 < height e -> 0 < width e ->
  In row (shift_2d (target_inds_in e) (grid_in e)) -> In s row ->
  - height e <= fst (reflect_px (height e) (width e) s) < height e /\
  - width e <= snd (reflect_px (height e) (width e) s) < width e.
Proof.
  intros Hh Hw Hrow Hs. unfold shift_2d in Hrow.
  apply in_map_iff in Hrow as [g [<- Hg]].
  unfold translate in Hs. apply in_map_iff in Hs as [t [<- Ht]].
  assert (Hne : target_inds_in e <> []) by (intros E; rewrite E in Ht; contradiction).
  apply (grid_in_range e g Hh Hw Hne) in Hg.
  apply target_inds_in_range in Ht.
  unfold reflect_px; cbn [fst snd].
  destruct (Z.geb_spec (fst t + fst g) (height e));
    destruct (Z.geb_spec (snd t + snd g) (width e)); lia.
Qed.

Lemma gather_total {A : Type} (h w : Z) (a : image A) (inds : list (list pixel)) :
  (forall row p, In row inds -> In p row ->
                 - h <= fst p < h /\ - w <= snd p < w) ->
  exists v, gather h w a inds = Some v.
Proof.
  intros H. apply mapM_total. intros row Hrow.
  apply mapM_total. intros p Hp.
  apply getitem2_Some. eapply H; eauto.
Qed.

Lemma candidates_of_total (e : env) (target_inds : list pixel)
      (shifted : list (list pixel)) :
  (forall row s, In row shifted -> In s row ->
     - height e <= fst (reflect_px (height e) (width e) s) < height e /\
     - width e <= snd (reflect_px (height e) (width e) s) < width e) ->
  exists sti inb vis, candidates_of e target_inds shifted = Some (sti, inb, vis).
Proof.
  intros H.
  assert (H' : forall row p, In row (reflect (height e) (width e) shifted) ->
                 In p row ->
                 - height e <= fst p < height e /\ - width e <= snd p < width e).
  { intros row p Hrow Hp. unfold reflect in Hrow.
    apply in_map_iff in Hrow as [row0 [<- Hrow0]].
    apply in_map_iff in Hp as [s [<- Hs]]. eapply H; eauto. }
  unfold candidates_of, render_target_modal_mask, shifted_target_depths_of.
  cbv zeta beta iota.
  destruct (gather_total _ _ (render_plane_depth e) _ H') as [pd ->].
  destruct (gather_total _ _ (render_full_depth e) _ H') as [fd ->].
  simpl. eauto.
Qed.

(** The 2D search never raises [IndexError] while it evaluates the
    candidates. *)
Lemma matching_2d_total (e : env) :
  0 < height e -> 0 < width e -> exists m, matching_2d e = Some m.
Proof.
  intros Hh Hw.
  unfold matching_2d, render_target_modal_mask. cbv zeta beta iota.
  unfold matching_target_inds_of.
  destruct (candidates_of_total e (target_inds_in e)
              (shift_2d (target_inds_in e) (grid_in e)))
    as [sti [inb [vis Hc]]].
  { intros row s. apply shift_2d_reflected_legal; assumption. }
  unfold grid_in, target_inds_in in Hc. rewrite Hc. simpl.
  destruct (negb (any _)); eauto.
Qed.

End Grid.

(** ** The zero-translation candidate of the 2D search *)

Section Identity.
Import Np BinHeapEnv Scenes.












Lemma any_count_true (l : list bool) : any l = true -> 0 < count_true l.
Proof.
  unfold any, count_true. induction l as [|b l IH]; simpl; [discriminate|].
  destruct b; simpl; [lia|]. assumption.
Qed.


Lemma matching_2d_unfold (e : env) :
  matching_2d e =
  matching_target_inds_of iou_thresh_2d e (target_inds_in e)
                          (shift_2d (target_inds_in e) (grid_in e)).
Proof. reflexivity. Qed.







End Identity.

(** ** The distribution accumulator *)

Section Accumulator.
Import Np BinHeapEnv Scenes.

Lemma normalise_in_range (h w : Z) (m : list pixel) :
  (forall p, In p m -> 0 <= fst p < h /\ 0 <= snd p < w) ->
  mapM (fun p => r <- norm_index h (fst p) ;;
                 c <- norm_index w (snd p) ;;
                 Some (r, c)) m = Some m.
Proof.
  induction m as [|p m IH]; intros H; simpl; [reflexivity|].
  destruct (H p (or_introl eq_refl)) as [Hr Hc].
  rewrite (norm_index_in_range _ _ Hr), (norm_index_in_range _ _ Hc). simpl.
  rewrite IH by (intros; apply H; right; assumption).
  destruct p; reflexivity.
Qed.

Lemma accumulate_in_range (h w : Z) (m : list pixel) :
  (forall p, In p m -> 0 <= fst p < h /\ 0 <= snd p < w) ->
  accumulate h w m =
    Some {| dist_im := fun r c => existsb (pixel_eqb (r, c)) m;
            soft_dist_im := fun r c =>
              if fold_right Z.max 0
                   (map (fun p => hits m (fst p) (snd p)) (all_pixels h w)) =? 0
              then 0
              else astype_int
                     (inject_Z (255 * hits m r c)
                      / inject_Z (fold_right Z.max 0
                                    (map (fun p => hits m (fst p) (snd p))
                                         (all_pixels h w)))) |}.
Proof.
  intros H. unfold accumulate. rewrite (normalise_in_range h w m H). reflexivity.
Qed.

Lemma Some_eq {X : Type} (a b : X) : Some a = Some b -> a = b.
Proof. intros H. injection H as H. exact H. Qed.

Lemma hits_nonneg (m : list pixel) (r c : Z) : 0 <= hits m r c.
Proof. unfold hits. lia. Qed.

Lemma hits_pos_iff (m : list pixel) (r c : Z) : 0 < hits m r c <-> In (r, c) m.
Proof.
  unfold hits. split.
  - intros H. destruct (filter (pixel_eqb (r, c)) m) as [|q l] eqn:E; [simpl in H; lia|].
    assert (Hq : In q (filter (pixel_eqb (r, c)) m)) by (rewrite E; left; reflexivity).
    apply filter_In in Hq as [Hq Heq]. apply pixel_eqb_eq in Heq. subst q. assumption.
  - intros H.
    assert (Hq : In (r, c) (filter (pixel_eqb (r, c)) m)).
    { apply filter_In. split; [assumption|]. apply pixel_eqb_eq. reflexivity. }
    destruct (filter (pixel_eqb (r, c)) m); [contradiction|]. simpl. lia.
Qed.

Lemma fold_max_upper {X : Type} (f : X -> Z) (l : list X) (x : X) :
  In x l -> f x <= fold_right Z.max 0 (map f l).
Proof.
  induction l as [|y l IH]; intros H; [contradiction|].
  simpl. destruct H as [->|H]; [lia|]. specialize (IH H). lia.
Qed.

Lemma fold_max_attained {X : Type} (f : X -> Z) (l : list X) :
  0 < fold_right Z.max 0 (map f l) ->
  exists x, In x l /\ f x = fold_right Z.max 0 (map f l).
Proof.
  induction l as [|y l IH]; intros H; simpl in *; [lia|].
  destruct (Z.max_spec (f y) (fold_right Z.max 0 (map f l))) as [[Hlt E]|[Hle E]].
  - rewrite E in *. destruct (IH H) as [x [Hx Hf]]. exists x. auto.
  - rewrite E. exists y. auto.
Qed.

Lemma astype_int_scaled (a b : Z) :
  0 <= a <= b -> 0 < b ->
  0 <= astype_int (inject_Z (255 * a) / inject_Z b) <= 255.
Proof.
  intros Ha Hb. rewrite astype_int_div by assumption.
  rewrite Z.quot_div_nonneg by lia. split.
  - apply Z.div_pos; lia.
  - apply Z.div_le_upper_bound; lia.
Qed.

(** X2.  For a non-empty match array whose pixels lie inside the image the
    accumulator returns images, every intensity is between 0 and 255, and
    some pixel of the image has intensity exactly 255 (the rescaling maps
    the largest hit count to the largest [uint8]). *)
Theorem accumulate_rescales_to_255 (h w : Z) (m : list pixel) :
  m <> [] ->
  (forall p, In p m -> 0 <= fst p < h /\ 0 <= snd p < w) ->
  exists d,
    accumulate h w m = Some d /\
    (forall r c, 0 <= soft_dist_im d r c <= 255) /\
    (exists r c, (0 <= r < h /\ 0 <= c < w) /\
                 soft_dist_im d r c = 255 /\ dist_im d r c = true).
Proof.
  intros Hne Hin. rewrite (accumulate_in_range h w m Hin).
  eexists. split; [reflexivity|]. cbn [soft_dist_im dist_im].
  set (mx := fold_right Z.max 0
               (map (fun p => hits m (fst p) (snd p)) (all_pixels h w))).
  assert (Hup : forall r c, hits m r c <= mx).
  { intros r c. destruct (Z_lt_le_dec 0 (hits m r c)) as [Hpos|Hz].
    - apply hits_pos_iff in Hpos.
      apply (fold_max_upper (fun p => hits m (fst p) (snd p)) _ (r, c)).
      apply all_pixels_In. apply (Hin _ Hpos).
    - pose proof (hits_nonneg m r c).
      assert (0 <= mx); [|lia].
      unfold mx. clear. induction (all_pixels h w); simpl; lia. }
  assert (Hmx : 0 < mx).
  { destruct m as [|p m']; [congruence|].
    assert (Hp : In p (p :: m')) by (left; reflexivity).
    pose proof (Hup (fst p) (snd p)) as Hle.
    assert (0 < hits (p :: m') (fst p) (snd p)); [|lia].
    apply hits_pos_iff. destruct p; assumption. }
  split.
  - intros r c. destruct (Z.eqb_spec mx 0); [lia|].
    apply astype_int_scaled; [|assumption].
    split; [apply hits_nonneg|apply Hup].
  - destruct (fold_max_attained (fun p => hits m (fst p) (snd p)) _ Hmx)
      as [p [Hp Hf]].
    fold mx in Hf. exists (fst p), (snd p).
    split; [apply all_pixels_In; assumption|]. split.
    + destruct (Z.eqb_spec mx 0); [lia|]. rewrite Hf.
      rewrite astype_int_div by assumption.
      rewrite Z.quot_div_nonneg by lia. apply Z.div_mul. lia.
    + apply existsb_pixel_eqb. apply hits_pos_iff. lia.
Qed.

Lemma accumulate_rescales_to_255_witness :
  exists d,
    accumulate 38 101 [(0, 0); (0, 3); (0, 3)] = Some d /\
    (forall r c, 0 <= soft_dist_im d r c <= 255) /\
    (exists r c, (0 <= r < 38 /\ 0 <= c < 101) /\
                 soft_dist_im d r c = 255 /\ dist_im d r c = true).
Proof.
  apply (accumulate_rescales_to_255 38 101 [(0, 0); (0, 3); (0, 3)]).
  - discriminate.
  - intros p [<-|[<-|[<-|[]]]]; simpl; lia.
Defined.


End Accumulator.

(** ** The searches, end to end *)

Section Searches.
Import Np BinHeapEnv Scenes.


Lemma matching_3d_unfold (tr : trig) (e : env) :
  matching_3d tr e =
  matching_target_inds_of iou_thresh_3d e (target_inds_in e)
    (shift_3d (rotated_target_inds_of tr (target_centroid_of (target_inds_in e))
                                      (target_inds_in e))
              (grid_in e)).
Proof. reflexivity. Qed.

(** Whatever the candidates, the pixels of the match array lie inside the
    image. *)
Lemma matching_in_range (iou_thresh : Z -> Q) (e : env) (target_inds : list pixel)
      (shifted : list (list pixel)) (m : list pixel) :
  (forall t, In t target_inds -> 0 <= fst t < height e /\ 0 <= snd t < width e) ->
  matching_target_inds_of iou_thresh e target_inds shifted = Some m ->
  forall p, In p m -> 0 <= fst p < height e /\ 0 <= snd p < width e.
Proof.
  intros HT Hm p Hp. unfold matching_target_inds_of in Hm.
  destruct (candidates_of e target_inds shifted) as [[[sti inb] vis]|] eqn:Hc;
    [|discriminate].
  simpl in Hm. destruct (negb (any (target_inds_mask_of e target_inds))).
  - apply Some_eq in Hm. subst m.
    apply (occluded_matching_In e _ _ _ _ _ p Hc) in Hp.
    destruct Hp as [j [row [vrow [l [_ [_ [_ [_ H]]]]]]]]. exact H.
  - apply Some_eq in Hm. subst m. unfold fallback in Hp.
    destruct (negb (any_nonzero _)) in Hp.
    + apply HT. assumption.
    + apply (iou_matching_In iou_thresh e _ _ _ _ _ p Hc) in Hp.
      destruct Hp as [j [row [iou [l [_ [_ [_ [_ H]]]]]]]]. exact H.
Qed.

Lemma dist_im_of_accumulate (h w : Z) (m : list pixel) :
  (forall p, In p m -> 0 <= fst p < h /\ 0 <= snd p < w) ->
  exists d, accumulate h w m = Some d /\
            forall r c, dist_im d r c = true <-> In (r, c) m.
Proof.
  intros H. rewrite (accumulate_in_range h w m H). eexists.
  split; [reflexivity|]. intros r c. cbn [dist_im]. apply existsb_pixel_eqb.
Qed.

(** X1.  For every camera of positive size and any three renders the 2D
    search raises no [IndexError], neither in the gathers nor in the final
    scatter: it returns images, [dist_im] is true exactly at the pixels of
    the match array, and those lie inside the image. *)
Theorem search_2d_returns (e : env) :
  0 < height e -> 0 < width e ->
  exists m d,
    matching_2d e = Some m /\
    find_target_distribution_2d e = Some d /\
    (forall r c, dist_im d r c = true <-> In (r, c) m) /\
    (forall p, In p m -> 0 <= fst p < height e /\ 0 <= snd p < width e).
Proof.
  intros Hh Hw. destruct (matching_2d_total e Hh Hw) as [m Hm].
  assert (Hin : forall p, In p m -> 0 <= fst p < height e /\ 0 <= snd p < width e).
  { rewrite matching_2d_unfold in Hm.
    apply (matching_in_range _ _ _ _ _ (target_inds_in_range e) Hm). }
  destruct (dist_im_of_accumulate _ _ _ Hin) as [d [Hd Hdist]].
  exists m, d. split; [assumption|]. split; [|auto].
  unfold find_target_distribution_2d. rewrite Hm. exact Hd.
Qed.

Lemma search_2d_returns_witness :
  exists m d,
    matching_2d block_env = Some m /\
    find_target_distribution_2d block_env = Some d /\
    (forall r c, dist_im d r c = true <-> In (r, c) m) /\
    (forall p, In p m -> 0 <= fst p < height block_env /\ 0 <= snd p < width block_env).
Proof.
  apply (search_2d_returns block_env); reflexivity.
Defined.

(** X4.  The 3D search can raise [IndexError] only while it gathers the
    depths of the candidates: once the match array exists the final scatter
    succeeds, [dist_im] is true exactly at the pixels of the match array,
    and those lie inside the image. *)
Theorem search_3d_raises_only_in_gather (tr : trig) (e : env) :
  (find_target_distribution_3d tr e = None <-> matching_3d tr e = None) /\
  (forall d, find_target_distribution_3d tr e = Some d ->
     exists m,
       matching_3d tr e = Some m /\
       (forall r c, dist_im d r c = true <-> In (r, c) m) /\
       (forall p, In p m -> 0 <= fst p < height e /\ 0 <= snd p < width e)).
Proof.
  unfold find_target_distribution_3d.
  destruct (matching_3d tr e) as [m|] eqn:Hm; simpl.
  - assert (Hin : forall p, In p m ->
                            0 <= fst p < height e /\ 0 <= snd p < width e).
    { rewrite matching_3d_unfold in Hm.
      apply (matching_in_range _ _ _ _ _ (target_inds_in_range e) Hm). }
    destruct (dist_im_of_accumulate _ _ _ Hin) as [d [Hd Hdist]].
    rewrite Hd. split.
    + split; discriminate.
    + intros d' E. apply Some_eq in E. subst d'. exists m. auto.
  - split; [tauto|]. intros d E. discriminate.
Qed.

Lemma search_3d_raises_only_in_gather_witness :
  exists d m,
    find_target_distribution_3d float64_trig single_env = Some d /\
    matching_3d float64_trig single_env = Some m /\
    (forall r c, dist_im d r c = true <-> In (r, c) m).
Proof.
  destruct (find_target_distribution_3d float64_trig single_env) as [d|] eqn:E.
  - destruct (proj2 (search_3d_raises_only_in_gather float64_trig single_env) d E)
      as [m [Hm [Hd _]]].
    exists d, m. split; [reflexivity|]. split; assumption.
  - apply (proj1 (search_3d_raises_only_in_gather float64_trig single_env)) in E.
    assert (H : matching_3d float64_trig single_env = Some [(0, 1)])
      by (vm_compute; reflexivity).
    rewrite H in E. clear H. discriminate E.
Defined.

(** X5.  When the target is not fully occluded the 2D search returns a
    non-empty distribution: some pixel of the image is true in [dist_im] and
    has intensity 255, and every intensity is between 0 and 255. *)
Theorem search_2d_nonempty_when_visible (e : env) :
  0 < height e -> 0 < width e ->
  any (target_inds_mask_of e (target_inds_in e)) = true ->
  exists d,
    find_target_distribution_2d e = Some d /\
    (forall r c, 0 <= soft_dist_im d r c <= 255) /\
    (exists r c, (0 <= r < height e /\ 0 <= c < width e) /\
                 soft_dist_im d r c = 255 /\ dist_im d r c = true).
Proof.
  intros Hh Hw Hany. destruct (matching_2d_total e Hh Hw) as [m Hm].
  assert (Hin : forall p, In p m -> 0 <= fst p < height e /\ 0 <= snd p < width e).
  { rewrite matching_2d_unfold in Hm.
    apply (matching_in_range _ _ _ _ _ (target_inds_in_range e) Hm). }
  assert (Hne : m <> []).
  { rewrite matching_2d_unfold in Hm.
    apply (visible_regime_nonempty _ _ _ _ _ Hany Hm). }
  destruct (accumulate_rescales_to_255 _ _ _ Hne Hin) as [d [Hd H]].
  exists d. split; [|exact H].
  unfold find_target_distribution_2d. rewrite Hm. exact Hd.
Qed.

Lemma search_2d_nonempty_when_visible_witness :
  exists d,
    find_target_distribution_2d block_env = Some d /\
    (forall r c, 0 <= soft_dist_im d r c <= 255) /\
    (exists r c, (0 <= r < height block_env /\ 0 <= c < width block_env) /\
                 soft_dist_im d r c = 255 /\ dist_im d r c = true).
Proof.
  apply (search_2d_nonempty_when_visible block_env);
    [reflexivity|reflexivity|vm_compute; reflexivity].
Defined.

End Searches.

(** ** More on the similarity scorer and the candidates *)

Section ScorerFacts.
Import Np BinHeapEnv Scenes.

Lemma NoDup_map_inj {X Y : Type} (f : X -> Y) (l : list X) :
  (forall x y, f x = f y -> x = y) -> NoDup l -> NoDup (map f l).
Proof.
  intros Hf H. induction H as [|x l Hx H IH]; simpl; constructor; [|assumption].
  intros Hin. apply in_map_iff in Hin as [y [E Hy]].
  apply Hf in E. subst y. contradiction.
Qed.

Lemma arange_NoDup (n : Z) : NoDup (arange n).
Proof.
  unfold arange. apply NoDup_map_inj; [|apply seq_NoDup].
  intros x y E. apply Nat2Z.inj. assumption.
Qed.

Lemma NoDup_flat_map {X Y : Type} (f : X -> list Y) (l : list X) :
  NoDup l -> (forall x, NoDup (f x)) ->
  (forall x y z, In z (f x) -> In z (f y) -> x = y) ->
  NoDup (flat_map f l).
Proof.
  intros Hl Hf Hd. induction Hl as [|x l Hx Hl IH]; simpl; [constructor|].
  apply NoDup_app; [apply Hf|assumption|].
  intros z Hz Hz'. apply in_flat_map in Hz' as [y [Hy Hzy]].
  rewrite (Hd x y z Hz Hzy) in Hx. contradiction.
Qed.

Lemma all_pixels_NoDup (h w : Z) : NoDup (all_pixels h w).
Proof.
  unfold all_pixels. apply NoDup_flat_map.
  - apply arange_NoDup.
  - intros r. apply NoDup_map_inj; [|apply arange_NoDup].
    intros x y E. inversion E. reflexivity.
  - intros x y z Hx Hy.
    apply in_map_iff in Hx as [c [<- _]].
    apply in_map_iff in Hy as [c' [E _]]. inversion E. reflexivity.
Qed.

Lemma covered_le_length (S L : list pixel) :
  NoDup L ->
  (length (filter (fun p => existsb (pixel_eqb p) S) L) <= length S)%nat.
Proof.
  intros H. apply NoDup_incl_length; [apply NoDup_filter; assumption|].
  intros p Hp. apply filter_In in Hp as [_ Hp].
  apply existsb_pixel_eqb. assumption.
Qed.

Lemma select_row_le_count (row : list pixel) (m : list bool) :
  (length (select_row row m) <= length (filter (fun b => b) m))%nat.
Proof.
  unfold select_row. revert m.
  induction row as [|p row IH]; intros [|b m]; simpl; try lia.
  destruct b; simpl; specialize (IH m); lia.
Qed.

(** X7.  For every candidate the intersection count is at most the number
    of its visible pixels, so the union is at least the modal pixel count of
    the target: in the branch for a target that is not fully occluded the
    union is positive, [intersection / union] never divides by zero, and the
    IoU is not negative. *)
Theorem union_is_at_least_modal_count
        (e : env) (target_inds : list pixel)
        (sti : list (list pixel)) (vis : list (list bool))
        (j : nat) (i u : Z) :
  let n := count_true (target_inds_mask_of e target_inds) in
  let intersection :=
    intersection_of (height e) (width e)
                    (modal_mask (render_full_depth e) (render_depth e)) sti vis in
  nth_error intersection j = Some i ->
  nth_error (union_of vis n intersection) j = Some u ->
  0 <= i /\ n <= u /\
  (any (target_inds_mask_of e target_inds) = true ->
   0 < u /\ (0 <= inject_Z i / inject_Z u)%Q).
Proof.
  cbv zeta. intros Hi Hu.
  unfold union_of in Hu.
  apply zipWith_nth_error_inv in Hu as [vrow [i' [Hv [Hi' ->]]]].
  rewrite Hi in Hi'. apply Some_eq in Hi'. subst i'.
  unfold intersection_of in Hi.
  apply zipWith_nth_error_inv in Hi as [row [vrow' [Hr [Hv' ->]]]].
  rewrite Hv in Hv'. apply Some_eq in Hv'. subst vrow'.
  set (modal_px := filter (at_px (modal_mask (render_full_depth e) (render_depth e)))
                          (all_pixels (height e) (width e))).
  assert (Hle : (length (filter (shifted_target_mask row vrow) modal_px)
                 <= length (filter (fun b => b) vrow))%nat).
  { eapply Nat.le_trans; [|apply (select_row_le_count row vrow)].
    unfold shifted_target_mask. apply covered_le_length.
    unfold modal_px. apply NoDup_filter. apply all_pixels_NoDup. }
  assert (Hle' : Z.of_nat (length (filter (shifted_target_mask row vrow) modal_px))
                 <= count_true vrow) by (unfold count_true; lia).
  clear Hle.
  split; [lia|]. split; [lia|].
  intros Hany. pose proof (any_count_true _ Hany) as Hn.
  split; [lia|].
  apply Qle_shift_div_l.
  - change 0%Q with (inject_Z 0). rewrite <- Zlt_Qlt. lia.
  - rewrite Qmult_0_l. change 0%Q with (inject_Z 0). rewrite <- Zle_Qle. lia.
Qed.

(** The 2 x 2 block and the candidate one column to its right: all four
    candidate pixels are visible, two of them lie on the block, so the
    intersection is 2, the union 4 + 4 - 2 = 6 and the IoU 1/3. *)
Lemma union_is_at_least_modal_count_witness :
  0 <= 2 /\ 4 <= 6 /\
  (any (target_inds_mask_of block_env (target_inds_in block_env)) = true ->
   0 < 6 /\ (0 <= inject_Z 2 / inject_Z 6)%Q).
Proof.
  apply (union_is_at_least_modal_count
           block_env (target_inds_in block_env)
           [[(0, 2); (0, 3); (1, 2); (1, 3)]] [[true; true; true; true]]
           0%nat 2 6);
    vm_compute; reflexivity.
Defined.

(** X8.  Lowering the IoU threshold never shrinks the set of matched
    pixels. *)
Theorem lower_threshold_keeps_matches
        (thr_lo thr_hi : Z -> Q) (e : env) (target_inds : list pixel)
        (shifted sti : list (list pixel)) (inb vis : list (list bool))
        (p : pixel) :
  candidates_of e target_inds shifted = Some (sti, inb, vis) ->
  (thr_lo (count_true (target_inds_mask_of e target_inds))
   <= thr_hi (count_true (target_inds_mask_of e target_inds)))%Q ->
  In p (iou_matching thr_hi e target_inds sti inb vis) ->
  In p (iou_matching thr_lo e target_inds sti inb vis).
Proof.
  intros Hc Hle Hp.
  apply (iou_matching_In thr_hi e _ _ _ _ _ p Hc) in Hp.
  apply (iou_matching_In thr_lo e _ _ _ _ _ p Hc).
  destruct Hp as [j [row [iou [l [H1 [H2 [H3 H4]]]]]]].
  exists j, row, iou, l. split; [assumption|]. split; [assumption|].
  split; [|assumption]. eapply Qle_trans; eassumption.
Qed.

Lemma lower_threshold_keeps_matches_witness :
  In (0, 1) (iou_matching iou_thresh_2d single_env [(0, 1)]
                          [[(0, 1)]] [[true]] [[true]]).
Proof.
  apply (lower_threshold_keeps_matches iou_thresh_2d iou_thresh_3d single_env
           [(0, 1)] [[(0, 1)]] [[(0, 1)]] [[true]] [[true]] (0, 1)).
  - vm_compute. reflexivity.
  - vm_compute. discriminate.
  - vm_compute. left. reflexivity.
Defined.

End ScorerFacts.

(** ** The candidate grid *)

Section Candidates.
Import Np BinHeapEnv Scenes.

Lemma rotate_px_zero (tr : trig) (cen : Q * Q) (t : pixel) :
  (cosa tr 0 == 1)%Q -> (sina tr 0 == 0)%Q -> rotate_px tr cen 0 t = t.
Proof.
  intros Hc Hs. unfold rotate_px. destruct t as [r c]. cbn [fst snd].
  f_equal; apply astype_int_inject; rewrite Hc, Hs; ring.
Qed.

(** X9.  With [cos 0 = 1] and [sin 0 = 0] the rotation by the first angle
    leaves every index where it is, and the first [G] candidates of the 3D
    search are the candidates of the 2D search, in the same order. *)
Theorem zero_rotation_gives_2d_candidates
        (tr : trig) (cen : Q * Q) (target_inds grid : list pixel) (i : nat) :
  (cosa tr 0 == 1)%Q -> (sina tr 0 == 0)%Q ->
  (i < length grid)%nat ->
  (forall t, rotate_px tr cen 0 t = t) /\
  nth_error (shift_3d (rotated_target_inds_of tr cen target_inds) grid) i
  = nth_error (shift_2d target_inds grid) i.
Proof.
  intros Hc Hs Hi. split; [intros t; apply rotate_px_zero; assumption|].
  destruct (nth_error grid i) as [g|] eqn:Hg;
    [|apply nth_error_None in Hg; lia].
  pose proof (shift_3d_nth_error tr cen target_inds grid 0 i g ltac:(lia) Hg) as H.
  change (0 * length grid + i)%nat with i in H.
  change (Z.of_nat 0) with 0 in H. rewrite H. unfold shift_2d.
  rewrite (map_nth_error (fun g0 => translate g0 target_inds) _ _ Hg).
  f_equal. f_equal. rewrite <- (map_id target_inds) at 2.
  apply map_ext. intros t. apply rotate_px_zero; assumption.
Qed.

Lemma zero_rotation_gives_2d_candidates_witness :
  (forall t, rotate_px float64_trig (0%Q, 1%Q) 0 t = t) /\
  nth_error (shift_3d (rotated_target_inds_of float64_trig (0%Q, 1%Q) [(0, 1)])
                      [(0, -1); (1, -1)]) 1
  = nth_error (shift_2d [(0, 1)] [(0, -1); (1, -1)]) 1.
Proof.
  apply (zero_rotation_gives_2d_candidates float64_trig (0%Q, 1%Q) [(0, 1)]
                                           [(0, -1); (1, -1)] 1).
  - reflexivity.
  - reflexivity.
  - simpl. lia.
Defined.

Lemma linspace_int_first (stop num : Z) :
  1 < num -> In 0 (linspace_int stop num).
Proof.
  intros Hn. unfold linspace_int. apply in_map_iff. exists 0. split.
  - rewrite astype_int_div by lia. reflexivity.
  - apply arange_In. lia.
Qed.

Lemma linspace_int_last (stop num : Z) :
  1 < num -> In stop (linspace_int stop num).
Proof.
  intros Hn. unfold linspace_int. apply in_map_iff. exists (num - 1). split.
  - rewrite astype_int_div by lia. rewrite Z.mul_comm. apply Z.quot_mul. lia.
  - apply arange_In. lia.
Qed.

Lemma meshgrid_flat_In (y x : list Z) (g : pixel) :
  In g (meshgrid_flat y x) <-> In (fst g) y /\ In (snd g) x.
Proof.
  unfold meshgrid_flat. rewrite in_flat_map. split.
  - intros [xi [Hx Hg]]. apply in_map_iff in Hg as [yj [<- Hy]]. auto.
  - intros [Hy Hx]. exists (snd g). split; [assumption|].
    apply in_map_iff. exists (fst g). split; [destruct g; reflexivity|assumption].
Qed.

(** X10.  For a camera of positive size the translation grid has 51 * 38 =
    1938 offsets whatever the centroid, so the 2D search has 1938 candidates
    and the 3D search 16 * 1938.  The offsets move the integer part of the
    centroid onto sampled positions that cover the image edge to edge: the
    offsets to (0, 0) and to (height - 1, width - 1) are in the grid, and
    every offset moves it to a position inside the image. *)
Theorem candidate_grid_shape (tr : trig) (h w : Z) (cen : Q * Q)
        (target_inds : list pixel) :
  0 < h -> 0 < w ->
  let grid := grid_of h w cen in
  let cr := astype_int (fst cen) in
  let cc := astype_int (snd cen) in
  length grid = 1938%nat /\
  length (shift_2d target_inds grid) = 1938%nat /\
  length (shift_3d (rotated_target_inds_of tr cen target_inds) grid)
    = (16 * 1938)%nat /\
  In (0 - cr, 0 - cc) grid /\
  In (h - 1 - cr, w - 1 - cc) grid /\
  (forall g, In g grid ->
             0 <= fst g + cr <= h - 1 /\ 0 <= snd g + cc <= w - 1).
Proof.
  intros Hh Hw. cbv zeta.
  assert (Hlen : length (grid_of h w cen) = 1938%nat).
  { unfold grid_of. rewrite length_map. unfold meshgrid_flat.
    rewrite (flat_map_length_const _ 38).
    - unfold linspace_int. rewrite length_map. reflexivity.
    - intros x _. rewrite length_map. unfold linspace_int.
      rewrite length_map. reflexivity. }
  split; [exact Hlen|]. split.
  { unfold shift_2d. rewrite length_map. exact Hlen. }
  split.
  { unfold shift_3d. rewrite (flat_map_length_const _ (length (grid_of h w cen))).
    - unfold rotated_target_inds_of. rewrite length_map, Hlen. reflexivity.
    - intros rot _. apply length_map. }
  split.
  { unfold grid_of. apply in_map_iff. exists (0, 0). split; [reflexivity|].
    apply meshgrid_flat_In. split; apply linspace_int_first; reflexivity. }
  split.
  { unfold grid_of. apply in_map_iff. exists (h - 1, w - 1). split; [reflexivity|].
    apply meshgrid_flat_In. split; apply linspace_int_last; reflexivity. }
  intros g Hg. unfold grid_of in Hg. apply in_map_iff in Hg as [g0 [<- Hg0]].
  apply meshgrid_flat_In in Hg0 as [Hy Hx].
  apply linspace_int_range in Hy; [|lia|reflexivity].
  apply linspace_int_range in Hx; [|lia|reflexivity].
  cbn [fst snd]. lia.
Qed.

Lemma candidate_grid_shape_witness :
  length (grid_of 38 101 (0%Q, 1%Q)) = 1938%nat /\
  length (shift_2d [(0, 1)] (grid_of 38 101 (0%Q, 1%Q))) = 1938%nat.
Proof.
  pose proof (candidate_grid_shape float64_trig 38 101 (0%Q, 1%Q) [(0, 1)]
                eq_refl eq_refl) as H.
  cbv zeta in H. destruct H as [H1 [H2 _]]. split; assumption.
Defined.

End Candidates.

(** ** The render methods and the visibility flags *)

Section RenderFacts.
Import Np Render.

Lemma reflag_from_ext (f g : nat -> bool -> bool) (l : list node) :
  (forall i v, f i v = g i v) ->
  forall k, reflag_from k f l = reflag_from k g l.
Proof.
  intros H. induction l as [|n l IH]; intros k; simpl; [reflexivity|].
  rewrite IH. destruct (mesh_is_visible n); [rewrite H|]; reflexivity.
Qed.

Lemma reflag_from_comp (f g : nat -> bool -> bool) (l : list node) :
  forall k, reflag_from k f (reflag_from k g l)
            = reflag_from k (fun i v => f i (g i v)) l.
Proof.
  induction l as [|n l IH]; intros k; simpl; [reflexivity|].
  rewrite IH. destruct (mesh_is_visible n) eqn:E; simpl; [reflexivity|].
  rewrite E. reflexivity.
Qed.

Lemma reflag_ext (f g : nat -> bool -> bool) (l : list node) :
  (forall i v, f i v = g i v) -> reflag f l = reflag g l.
Proof. intros H. apply reflag_from_ext. assumption. Qed.

Lemma reflag_reflag (f g : nat -> bool -> bool) (l : list node) :
  reflag f (reflag g l) = reflag (fun i v => f i (g i v)) l.
Proof. apply reflag_from_comp. Qed.

Lemma reflag_from_names (f : nat -> bool -> bool) (l : list node) :
  forall k, map node_name (reflag_from k f l) = map node_name l.
Proof.
  induction l as [|n l IH]; intros k; simpl; [reflexivity|].
  rewrite IH. destruct (mesh_is_visible n); reflexivity.
Qed.

Lemma index_from_reflag (name : string) (f : nat -> bool -> bool) (l : list node) :
  forall k k', index_from k name (reflag_from k' f l) = index_from k name l.
Proof.
  induction l as [|n l IH]; intros k k'; simpl; [reflexivity|].
  rewrite IH.
  replace (has_name name
             match mesh_is_visible n with
             | Some v => {| node_name := node_name n; mesh_is_visible := Some (f k' v) |}
             | None => n
             end) with (has_name name n); [reflexivity|].
  unfold has_name. destruct (mesh_is_visible n); reflexivity.
Qed.

Lemma index_reflag (name : string) (f : nat -> bool -> bool) (l : list node) :
  index_from 0 name (reflag f l) = index_from 0 name l.
Proof. apply index_from_reflag. Qed.

Lemma nth_error_reflag_from (f : nat -> bool -> bool) (l : list node) :
  forall k i,
    nth_error (reflag_from k f l) i =
    option_map (fun n => match mesh_is_visible n with
                         | Some v => {| node_name := node_name n;
                                        mesh_is_visible := Some (f (k + i)%nat v) |}
                         | None => n
                         end) (nth_error l i).
Proof.
  induction l as [|n l IH]; intros k i; simpl.
  - destruct i; reflexivity.
  - destruct i as [|i]; simpl.
    + rewrite Nat.add_0_r. reflexivity.
    + rewrite IH. rewrite Nat.add_succ_r. reflexivity.
Qed.

Lemma has_mesh_reflag (f : nat -> bool -> bool) (l : list node) (i : nat) :
  has_mesh (reflag f l) i = has_mesh l i.
Proof.
  unfold has_mesh, reflag. rewrite nth_error_reflag_from.
  destruct (nth_error l i) as [n|]; simpl; [|reflexivity].
  destruct (mesh_is_visible n) eqn:E; simpl; [reflexivity|]. rewrite E. reflexivity.
Qed.

Lemma bindM_ok {A B : Type} (m : M A) (k : A -> M B) (s s' : scene) (a : A) :
  m s = (inl a, s') -> bindM m k s = k a s'.
Proof. intros H. unfold bindM. rewrite H. reflexivity. Qed.

Lemma bindM_err {A B : Type} (m : M A) (k : A -> M B) (s s' : scene) (x : exn) :
  m s = (inr x, s') -> bindM m k s = (inr x, s').
Proof. intros H. unfold bindM. rewrite H. reflexivity. Qed.

Lemma get_node_ok (name : string) (s : scene) (i : nat) :
  index_from 0 name (nodes s) = Some i -> get_node name s = (inl i, s).
Proof. intros H. unfold get_node. rewrite H. reflexivity. Qed.

Lemma get_node_err (name : string) (s : scene) :
  index_from 0 name (nodes s) = None -> get_node name s = (inr StopIteration, s).
Proof. intros H. unfold get_node. rewrite H. reflexivity. Qed.

Lemma set_is_visible_ok (i : nat) (b : bool) (s : scene) :
  has_mesh (nodes s) i = true ->
  set_is_visible i b s =
    (inl tt, {| nodes := reflag (fun j v => if Nat.eqb j i then b else v) (nodes s);
                live_renderers := live_renderers s |}).
Proof.
  unfold has_mesh, set_is_visible. intros H.
  destruct (nth_error (nodes s) i) as [n|]; [|discriminate].
  destruct (mesh_is_visible n); [reflexivity|discriminate].
Qed.

Lemma set_is_visible_err (i : nat) (b : bool) (s : scene) :
  has_mesh (nodes s) i = false -> set_is_visible i b s = (inr AttributeError, s).
Proof.
  unfold has_mesh, set_is_visible. intros H.
  destruct (nth_error (nodes s) i) as [n|]; [|reflexivity].
  destruct (mesh_is_visible n); [discriminate|reflexivity].
Qed.

Ltac run_ok :=
  first
    [ erewrite bindM_ok;
      [|apply get_node_ok; cbn [nodes]; rewrite ?index_reflag; eassumption]
    | erewrite bindM_ok;
      [|apply set_is_visible_ok; cbn [nodes]; rewrite ?has_mesh_reflag; assumption]
    | erewrite bindM_ok; [|reflexivity] ];
  cbn [nodes live_renderers].

Ltac flag_cases :=
  repeat match goal with
         | |- context [Nat.eqb ?a ?b] => destruct (Nat.eqb a b)
         end; reflexivity.

(** X12.  When the scene has mesh nodes named by the target key, bin and
    plane, [render_target_modal_mask] returns normally.  The full depth is
    rendered from the visibility found at entry with only the target and the
    bin hidden, the plane depth with the plane alone visible, the target
    depth with the plane and the target alone visible; on return every mesh
    is visible whatever was hidden at entry, no node was added, removed or
    renamed, and the renderer was deleted. *)
Theorem render_target_modal_mask_restores
        (depth_of : list node -> image Q) (target_key : string) (s : scene)
        (target_node bin_node plane_node : nat) :
  index_from 0 target_key (nodes s) = Some target_node ->
  has_mesh (nodes s) target_node = true ->
  index_from 0 "bin" (nodes s) = Some bin_node ->
  has_mesh (nodes s) bin_node = true ->
  index_from 0 "plane" (nodes s) = Some plane_node ->
  has_mesh (nodes s) plane_node = true ->
  let full_depth :=
    depth_of (reflag (fun j v => if Nat.eqb j target_node || Nat.eqb j bin_node
                                 then false else v) (nodes s)) in
  let plane_depth := depth_of (reflag (fun j _ => Nat.eqb j plane_node) (nodes s)) in
  let depth :=
    depth_of (reflag (fun j _ => Nat.eqb j plane_node || Nat.eqb j target_node)
                     (nodes s)) in
  render_target_modal_mask depth_of target_key s =
    (inl (full_depth, depth, BinHeapEnv.modal_mask full_depth depth, plane_depth),
     {| nodes := reflag (fun _ _ => true) (nodes s);
        live_renderers := live_renderers s |}) /\
  map node_name (reflag (fun _ _ => true) (nodes s)) = map node_name (nodes s).
Proof.
  intros Ht Htm Hb Hbm Hp Hpm. cbv zeta.
  split; [|apply reflag_from_names].
  unfold render_target_modal_mask, new_renderer, delete_renderer,
    set_all_visible, render_depth_only, ret.
  do 14 run_ok.
  rewrite !reflag_reflag.
  match goal with
  | |- (inl (depth_of ?a, depth_of ?b, _, depth_of ?c),
        {| nodes := ?d; live_renderers := _ |})
       = (inl (depth_of ?a', depth_of ?b', _, depth_of ?c'),
          {| nodes := ?d'; live_renderers := _ |}) =>
      assert (Ea : a = a') by (apply reflag_ext; intros i v; flag_cases);
      assert (Eb : b = b') by (apply reflag_ext; intros i v; flag_cases);
      assert (Ec : c = c') by (apply reflag_ext; intros i v; flag_cases);
      assert (Ed : d = d') by (apply reflag_ext; intros i v; flag_cases);
      rewrite ?Ea, ?Eb, ?Ec, ?Ed; reflexivity
  end.
Qed.

Lemma render_target_modal_mask_restores_witness :
  snd (render_target_modal_mask RenderScenes.visible_count "obj_0"
                                RenderScenes.bin_scene)
  = {| nodes := reflag (fun _ _ => true) (nodes RenderScenes.bin_scene);
       live_renderers := 0 |}.
Proof.
  rewrite (proj1 (render_target_modal_mask_restores
                    RenderScenes.visible_count "obj_0" RenderScenes.bin_scene
                    3 2 1 eq_refl eq_refl eq_refl eq_refl eq_refl eq_refl)).
  reflexivity.
Defined.

Ltac run_err :=
  first
    [ erewrite bindM_err;
      [|apply get_node_err; cbn [nodes]; rewrite ?index_reflag; eassumption]
    | erewrite bindM_err;
      [|apply set_is_visible_err; cbn [nodes]; rewrite ?has_mesh_reflag; assumption] ];
  cbn [nodes live_renderers].

(** X13.  [render_target_modal_mask] does not restore the scene when a
    lookup fails.  Without a node named bin it raises [StopIteration] with
    the target left hidden; with the bin but without a node named plane it
    raises [StopIteration] with every mesh left hidden and the renderer not
    deleted. *)
Theorem render_target_modal_mask_leaves_meshes_hidden
        (depth_of : list node -> image Q) (target_key : string) (s : scene)
        (target_node : nat) :
  index_from 0 target_key (nodes s) = Some target_node ->
  has_mesh (nodes s) target_node = true ->
  (index_from 0 "bin" (nodes s) = None ->
   render_target_modal_mask depth_of target_key s =
     (inr StopIteration,
      {| nodes := reflag (fun j v => if Nat.eqb j target_node then false else v)
                         (nodes s);
         live_renderers := live_renderers s |})) /\
  (forall bin_node,
     index_from 0 "bin" (nodes s) = Some bin_node ->
     has_mesh (nodes s) bin_node = true ->
     index_from 0 "plane" (nodes s) = None ->
     render_target_modal_mask depth_of target_key s =
       (inr StopIteration,
        {| nodes := reflag (fun _ _ => false) (nodes s);
           live_renderers := S (live_renderers s) |})).
Proof.
  intros Ht Htm. split.
  - intros Hb.
    unfold render_target_modal_mask, new_renderer, delete_renderer,
      set_all_visible, render_depth_only, ret.
    do 2 run_ok. run_err. reflexivity.
  - intros bin_node Hb Hbm Hp.
    unfold render_target_modal_mask, new_renderer, delete_renderer,
      set_all_visible, render_depth_only, ret.
    do 7 run_ok. run_err. rewrite !reflag_reflag. reflexivity.
Qed.

Lemma render_target_modal_mask_leaves_meshes_hidden_witness :
  render_target_modal_mask RenderScenes.visible_count "obj_0"
                           RenderScenes.no_plane_scene
  = (inr StopIteration,
     {| nodes := reflag (fun _ _ => false) (nodes RenderScenes.no_plane_scene);
        live_renderers := 1 |}).
Proof.
  apply (proj2 (render_target_modal_mask_leaves_meshes_hidden
                  RenderScenes.visible_count "obj_0" RenderScenes.no_plane_scene
                  2 eq_refl eq_refl) 1%nat);
    reflexivity.
Defined.

(** X14.  When the scene has mesh nodes named by the target key, bin and
    plane, both searches leave every mesh visible and the renderer deleted:
    the 2D search returns its images for every camera of positive size, and
    the 3D search either returns images or raises [IndexError], in both
    cases after the scene has been restored. *)
Theorem search_methods_restore_scene
        (depth_of : list node -> image Q) (target_key : string) (h w : Z)
        (s : scene) (target_node bin_node plane_node : nat) :
  index_from 0 target_key (nodes s) = Some target_node ->
  has_mesh (nodes s) target_node = true ->
  index_from 0 "bin" (nodes s) = Some bin_node ->
  has_mesh (nodes s) bin_node = true ->
  index_from 0 "plane" (nodes s) = Some plane_node ->
  has_mesh (nodes s) plane_node = true ->
  let restored := {| nodes := reflag (fun _ _ => true) (nodes s);
                     live_renderers := live_renderers s |} in
  (0 < h -> 0 < w ->
   exists d, find_target_distribution_2d depth_of target_key h w s
             = (inl d, restored)) /\
  (forall tr, exists r,
      find_target_distribution_3d depth_of tr target_key h w s = (r, restored) /\
      (r = inr IndexError \/ exists d, r = inl d)).
Proof.
  intros Ht Htm Hb Hbm Hp Hpm. cbv zeta.
  pose proof (proj1 (render_target_modal_mask_restores
                       depth_of target_key s _ _ _ Ht Htm Hb Hbm Hp Hpm)) as Hr.
  cbv zeta in Hr. split.
  - intros Hh Hw. unfold find_target_distribution_2d.
    rewrite (bindM_ok _ _ _ _ _ Hr).
    match goal with
    | |- context [BinHeapEnv.find_target_distribution_2d ?e] =>
        destruct (search_2d_returns e Hh Hw) as [m [d [_ [Hd _]]]]; rewrite Hd
    end.
    exists d. reflexivity.
  - intros tr. unfold find_target_distribution_3d.
    rewrite (bindM_ok _ _ _ _ _ Hr).
    match goal with
    | |- context [BinHeapEnv.find_target_distribution_3d tr ?e] =>
        destruct (BinHeapEnv.find_target_distribution_3d tr e) as [d|]
    end.
    + eexists. split; [reflexivity|]. right. eauto.
    + eexists. split; [reflexivity|]. left. reflexivity.
Qed.

Lemma search_methods_restore_scene_witness :
  exists d,
    find_target_distribution_2d RenderScenes.visible_count "obj_0" 38 101
                                RenderScenes.bin_scene
    = (inl d, {| nodes := reflag (fun _ _ => true) (nodes RenderScenes.bin_scene);
                 live_renderers := 0 |}).
Proof.
  apply (proj1 (search_methods_restore_scene
                  RenderScenes.visible_count "obj_0" 38 101 RenderScenes.bin_scene
                  3 2 1 eq_refl eq_refl eq_refl eq_refl eq_refl eq_refl));
    reflexivity.
Defined.

(** X15.  [render_target_image] renders with the target alone visible and
    returns with every mesh visible and the renderer deleted; when no node
    carries the target key it raises [StopIteration] with every mesh left
    hidden and the renderer not deleted. *)
Theorem render_target_image_outcomes
        (C : Type) (depth_of : list node -> image Q) (colour_of : list node -> C)
        (target_key : string) (color : bool) (s : scene) :
  (forall target_node,
     index_from 0 target_key (nodes s) = Some target_node ->
     has_mesh (nodes s) target_node = true ->
     let alone := reflag (fun j _ => Nat.eqb j target_node) (nodes s) in
     render_target_image C depth_of colour_of target_key color s =
       (inl (if color then Colour (colour_of alone) else Depth (depth_of alone)),
        {| nodes := reflag (fun _ _ => true) (nodes s);
           live_renderers := live_renderers s |})) /\
  (index_from 0 target_key (nodes s) = None ->
   render_target_image C depth_of colour_of target_key color s =
     (inr StopIteration,
      {| nodes := reflag (fun _ _ => false) (nodes s);
         live_renderers := S (live_renderers s) |})).
Proof.
  split.
  - intros target_node Ht Htm. cbv zeta.
    unfold render_target_image, new_renderer, delete_renderer,
      set_all_visible, render_flags, ret.
    do 7 run_ok. rewrite !reflag_reflag.
    match goal with
    | |- (inl (if color then Colour (colour_of ?a) else Depth (depth_of ?a)),
          {| nodes := ?d; live_renderers := _ |})
         = (inl (if color then Colour (colour_of ?a') else Depth (depth_of ?a')),
            {| nodes := ?d'; live_renderers := _ |}) =>
        assert (Ea : a = a') by (apply reflag_ext; intros i v; flag_cases);
        rewrite ?Ea; reflexivity
    end.
  - intros Ht.
    unfold render_target_image, new_renderer, delete_renderer,
      set_all_visible, render_flags, ret.
    do 2 run_ok. run_err. reflexivity.
Qed.

Lemma render_target_image_outcomes_witness :
  render_target_image unit RenderScenes.visible_count (fun _ => tt) "obj_1" false
                      RenderScenes.bin_scene
  = (inl (Depth (RenderScenes.visible_count
                   (reflag (fun j _ => Nat.eqb j 4) (nodes RenderScenes.bin_scene)))),
     {| nodes := reflag (fun _ _ => true) (nodes RenderScenes.bin_scene);
        live_renderers := 0 |}).
Proof.
  apply (proj1 (render_target_image_outcomes
                  unit RenderScenes.visible_count (fun _ => tt) "obj_1" false
                  RenderScenes.bin_scene) 4%nat);
    reflexivity.
Defined.

Lemma mapMM_get_node_ok (keys : list string) (idxs : list nat) (s : scene) :
  Forall2 (fun k i => index_from 0 k (nodes s) = Some i) keys idxs ->
  mapMM get_node keys s = (inl idxs, s).
Proof.
  induction 1 as [|k i keys idxs Hk _ IH]; [reflexivity|].
  simpl. rewrite (bindM_ok _ _ _ _ _ (get_node_ok _ _ _ Hk)).
  rewrite (bindM_ok _ _ _ _ _ IH). reflexivity.
Qed.

Lemma mapMM_get_node_err (keys : list string) (s : scene) :
  Exists (fun k => index_from 0 k (nodes s) = None) keys ->
  mapMM get_node keys s = (inr StopIteration, s).
Proof.
  induction keys as [|k keys IH]; intros H; [inversion H|].
  simpl. destruct (index_from 0 k (nodes s)) as [i|] eqn:Hk.
  - rewrite (bindM_ok _ _ _ _ _ (get_node_ok _ _ _ Hk)).
    apply bindM_err. apply IH.
    inversion H as [? ? H0|? ? H0]; subst; [congruence|assumption].
  - apply bindM_err. apply get_node_err. assumption.
Qed.

(** The loop of [render_segmentation_images], started with every mesh
    hidden: object [i] is rendered alone, and the loop ends with every mesh
    hidden again. *)
Lemma segmentation_loop_ok (depth_of : list node -> image Q) (full_depth : image Q)
      (l0 : list node) (live : nat) (idxs : list nat) :
  Forall (fun i => has_mesh l0 i = true) idxs ->
  segmentation_loop depth_of full_depth idxs
    {| nodes := reflag (fun _ _ => false) l0; live_renderers := live |}
  = (inl (map (fun i => amodal_layer
                          (depth_of (reflag (fun j _ => Nat.eqb j i) l0))) idxs,
          map (fun i => modal_layer
                          (depth_of (reflag (fun j _ => Nat.eqb j i) l0))
                          full_depth) idxs),
     {| nodes := reflag (fun _ _ => false) l0; live_renderers := live |}).
Proof.
  induction 1 as [|i idxs Hi _ IH]; [reflexivity|].
  simpl. unfold render_depth_only, ret.
  assert (Hm : has_mesh (reflag (fun _ _ => false) l0) i = true)
    by (rewrite has_mesh_reflag; assumption).
  erewrite bindM_ok; [|apply set_is_visible_ok; cbn [nodes]; exact Hm].
  cbn [nodes live_renderers].
  rewrite reflag_reflag.
  assert (E1 : reflag (fun (j : nat) (_ : bool) => if Nat.eqb j i then true else false) l0
               = reflag (fun j _ => Nat.eqb j i) l0)
    by (apply reflag_ext; intros j v; destruct (Nat.eqb j i); reflexivity).
  rewrite E1.
  erewrite bindM_ok; [|reflexivity]. cbn [nodes live_renderers].
  assert (Hm' : has_mesh (reflag (fun j _ => Nat.eqb j i) l0) i = true)
    by (rewrite has_mesh_reflag; assumption).
  erewrite bindM_ok; [|apply set_is_visible_ok; cbn [nodes]; exact Hm'].
  cbn [nodes live_renderers]. rewrite reflag_reflag.
  assert (E2 : reflag (fun (j : nat) (_ : bool) =>
                         if Nat.eqb j i then false else Nat.eqb j i) l0
               = reflag (fun _ _ => false) l0)
    by (apply reflag_ext; intros j v; destruct (Nat.eqb j i); reflexivity).
  rewrite E2. rewrite (bindM_ok _ _ _ _ _ IH). reflexivity.
Qed.

(** X16.  When every object key names a mesh node,
    [render_segmentation_images] renders each object alone: layer [i] of the
    amodal data is 255 exactly where the depth of object [i] rendered alone
    is positive, layer [i] of the modal data is 255 exactly where that depth
    is within 1e-6 of the depth of the scene as it was at entry and the
    latter is positive; on return every mesh is visible and both renderers
    were deleted.  When some object key names no node it raises
    [StopIteration] before any flag is changed, with the second renderer not
    deleted. *)
Theorem render_segmentation_images_outcomes
        (depth_of : list node -> image Q) (obj_keys : list string) (s : scene) :
  (forall obj_mesh_nodes,
     Forall2 (fun k i => index_from 0 k (nodes s) = Some i) obj_keys obj_mesh_nodes ->
     Forall (fun i => has_mesh (nodes s) i = true) obj_mesh_nodes ->
     let alone i := depth_of (reflag (fun j _ => Nat.eqb j i) (nodes s)) in
     render_segmentation_images depth_of obj_keys s =
       (inl (map (fun i => amodal_layer (alone i)) obj_mesh_nodes,
             map (fun i => modal_layer (alone i) (depth_of (nodes s))) obj_mesh_nodes),
        {| nodes := reflag (fun _ _ => true) (nodes s);
           live_renderers := live_renderers s |})) /\
  (Exists (fun k => index_from 0 k (nodes s) = None) obj_keys ->
   render_segmentation_images depth_of obj_keys s =
     (inr StopIteration,
      {| nodes := nodes s; live_renderers := S (live_renderers s) |})).
Proof.
  split.
  - intros idxs Hk Hm. cbv zeta.
    unfold render_segmentation_images, new_renderer, delete_renderer,
      set_all_visible, render_depth_only, ret.
    do 4 run_ok.
    erewrite bindM_ok; [|apply mapMM_get_node_ok; cbn [nodes]; exact Hk].
    run_ok.
    erewrite bindM_ok; [|apply segmentation_loop_ok; exact Hm].
    do 2 run_ok. rewrite reflag_reflag. reflexivity.
  - intros Hex.
    unfold render_segmentation_images, new_renderer, delete_renderer,
      set_all_visible, render_depth_only, ret.
    do 4 run_ok.
    erewrite bindM_err; [|apply mapMM_get_node_err; cbn [nodes]; exact Hex].
    reflexivity.
Qed.

Lemma render_segmentation_images_outcomes_witness :
  snd (render_segmentation_images RenderScenes.visible_count ["obj_0"; "obj_1"]%string
                                  RenderScenes.bin_scene)
  = {| nodes := reflag (fun _ _ => true) (nodes RenderScenes.bin_scene);
       live_renderers := 0 |}.
Proof.
  rewrite (proj1 (render_segmentation_images_outcomes
                    RenderScenes.visible_count ["obj_0"; "obj_1"]%string
                    RenderScenes.bin_scene) [3; 4]%nat).
  - reflexivity.
  - repeat constructor.
  - repeat constructor.
Defined.

(** X17.  Every layer value is 0 or 255.  Where the depth of the scene is
    at least 1e-6, a pixel in an object's modal layer is in its amodal
    layer; below that depth it need not be: a pixel the object does not
    cover (depth 0) is marked modal when the scene depth there is positive
    and less than 1e-6. *)
Theorem modal_layer_within_amodal_layer :
  (forall (depth full_depth : image Q) (r c : Z),
      (amodal_layer depth r c = 0 \/ amodal_layer depth r c = 255) /\
      (modal_layer depth full_depth r c = 0 \/ modal_layer depth full_depth r c = 255)) /\
  (forall (depth full_depth : image Q) (r c : Z),
      (1 # 1000000 <= full_depth r c)%Q ->
      modal_layer depth full_depth r c = 255 ->
      amodal_layer depth r c = 255) /\
  (modal_layer (fun _ _ => 0%Q) (fun _ _ => (1 # 2000000)%Q) 0 0 = 255 /\
   amodal_layer (fun _ _ => 0%Q) 0 0 = 0).
Proof.
  split; [|split].
  - intros depth full_depth r c. unfold amodal_layer, modal_layer.
    split.
    + destruct (Qltb 0 (depth r c)); auto.
    + destruct (Qltb _ _ && Qltb _ _); auto.
  - intros depth full_depth r c Hfull H. unfold amodal_layer, modal_layer in *.
    destruct (Qltb (Qabs (depth r c - full_depth r c)) (1 # 1000000)
              && Qltb 0 (full_depth r c)) eqn:E; [|discriminate].
    apply andb_true_iff in E as [E1 _]. apply Qltb_lt in E1.
    apply Qabs_Qlt_condition in E1 as [Hlo _].
    replace (Qltb 0 (depth r c)) with true; [reflexivity|].
    symmetry. apply Qltb_lt.
    apply Qlt_minus_iff in Hlo. apply Qle_minus_iff in Hfull.
    pose proof (Qplus_lt_le_compat _ _ _ _ Hlo Hfull) as H0.
    setoid_replace (0 + 0)%Q with 0%Q in H0 by ring.
    setoid_replace (depth r c - full_depth r c + - - (1 # 1000000)
                    + (full_depth r c + - (1 # 1000000)))%Q
      with (depth r c) in H0 by ring.
    exact H0.
  - split; vm_compute; reflexivity.
Qed.

Lemma modal_layer_within_amodal_layer_witness :
  amodal_layer (fun _ _ => 1%Q) 0 0 = 255.
Proof.
  apply (proj1 (proj2 modal_layer_within_amodal_layer)
               (fun _ _ => 1%Q) (fun _ _ => 1%Q) 0 0).
  - vm_compute. discriminate.
  - vm_compute. reflexivity.
Defined.

End RenderFacts.

(** ** The original position in the result *)

Section OriginalPosition.
Import Np BinHeapEnv Scenes.


(** X6.  Whenever the 3D search returns for a target that is not fully
    occluded, its distribution is non-empty: some pixel of the image is true
    in [dist_im] and has intensity 255, and every intensity is between 0 and
    255. *)
Theorem search_3d_nonempty_when_visible (tr : trig) (e : env) (d : distribution) :
  find_target_distribution_3d tr e = Some d ->
  any (target_inds_mask_of e (target_inds_in e)) = true ->
  (forall r c, 0 <= soft_dist_im d r c <= 255) /\
  (exists r c, (0 <= r < height e /\ 0 <= c < width e) /\
               soft_dist_im d r c = 255 /\ dist_im d r c = true).
Proof.
  intros Hd Hany.
  destruct (proj2 (search_3d_raises_only_in_gather tr e) d Hd) as [m [Hm [_ Hin]]].
  assert (Hne : m <> []).
  { rewrite matching_3d_unfold in Hm.
    apply (visible_regime_nonempty _ _ _ _ _ Hany Hm). }
  destruct (accumulate_rescales_to_255 _ _ _ Hne Hin) as [d' [Hd' H]].
  unfold find_target_distribution_3d in Hd. rewrite Hm in Hd. simpl in Hd.
  rewrite Hd' in Hd. apply Some_eq in Hd. subst d'. exact H.
Qed.

Lemma search_3d_nonempty_when_visible_witness :
  exists d,
    find_target_distribution_3d float64_trig single_env = Some d /\
    (forall r c, 0 <= soft_dist_im d r c <= 255).
Proof.
  destruct (find_target_distribution_3d float64_trig single_env) as [d|] eqn:E.
  - exists d. split; [reflexivity|].
    apply (search_3d_nonempty_when_visible float64_trig single_env d E).
    vm_compute. reflexivity.
  - apply (proj1 (search_3d_raises_only_in_gather float64_trig single_env)) in E.
    assert (H : matching_3d float64_trig single_env = Some [(0, 1)])
      by (vm_compute; reflexivity).
    rewrite H in E. clear H. discriminate E.
Defined.



End OriginalPosition.
